(** * summarise: a model of [janitor/functions/summarise.py]

    The function [summarise] normalises a batch of aggregation tuples,
    resolves the grouping, runs every request against the dataframe
    library and merges the partial tables.  The dataframe library and the
    helpers of the package that live in other modules are collaborators:
    they are the fields of the class [Runtime].  Dataframes are mutable
    objects, so tables live in a store and values refer to them by
    location; every computation threads the store and may raise. *)

From Stdlib Require Import ZArith Lia.
From stdpp Require Import base gmap list strings pretty.

Open Scope string_scope.
Open Scope nat_scope.
Open Scope list_scope.

#[local] Set Warnings "-register-all".

(** ** Python values *)

Definition loc := nat.

Inductive value : Type :=
| VNone
| VBool (b : bool)
| VInt (z : Z)
| VStr (s : string)
| VCallable (c : nat)
| VTuple (xs : list value)
| VList (xs : list value)
| VDict (kvs : list (string * value))
| VFrame (l : loc).

Inductive Error : Type :=
| ValueError (msg : string)
| CheckFailed (varname : string)
| TypeError (msg : string)
| AttributeError (msg : string)
| KeyError (msg : string)
| IndexError (msg : string)
| Dangling (l : loc).

Inductive res (A : Type) : Type :=
| OK (a : A)
| Err (e : Error).

Arguments OK {A} a.
Arguments Err {A} e.

Definition rbind {A B} (m : res A) (k : A -> res B) : res B :=
  match m with
  | OK a => k a
  | Err e => Err e
  end.

Notation "'let?' x ':=' m 'in' k" := (rbind m (fun x => k))
  (at level 10, x name, m at level 100, k at level 200).

(** The error kinds of the specification.  [ValueError] is what the
    function raises itself; [CheckFailed] is the failure of the
    validation helper. *)
Definition is_InvalidArgument (e : Error) : bool :=
  match e with
  | ValueError _ | CheckFailed _ => true
  | _ => false
  end.

Definition is_UnsupportedFunction (e : Error) : bool :=
  match e with
  | AttributeError _ => true
  | _ => false
  end.

Definition is_nil {A} (xs : list A) : bool :=
  match xs with
  | [] => true
  | _ => false
  end.

(** [bool(v)]: the truth value used by [if v:] and [v and ...]. *)
Definition truthy (v : value) : res bool :=
  match v with
  | VNone => OK false
  | VBool b => OK b
  | VInt z => OK (negb (z =? 0)%Z)
  | VStr s => OK (negb (String.eqb s ""))
  | VCallable _ => OK true
  | VTuple xs => OK (negb (is_nil xs))
  | VList xs => OK (negb (is_nil xs))
  | VDict kvs => OK (negb (is_nil kvs))
  | VFrame _ => Err (ValueError "The truth value of a DataFrame is ambiguous.")
  end.

Definition falsy (v : value) : Prop := truthy v = OK false.

Definition is_str (v : value) : bool :=
  match v with VStr _ => true | _ => false end.

Definition callable (v : value) : bool :=
  match v with VCallable _ => true | _ => false end.

Definition is_frame (v : value) : bool :=
  match v with VFrame _ => true | _ => false end.

(** The types handed to [check]. *)
Inductive pytype : Type :=
| Ttuple
| Tstr
| Tcallable
| Tlist
| THashable.

Definition isinstance (v : value) (t : pytype) : bool :=
  match t, v with
  | Ttuple, VTuple _ => true
  | Tstr, VStr _ => true
  | Tcallable, VCallable _ => true
  | Tlist, VList _ => true
  | THashable, (VList _ | VDict _) => false
  | THashable, _ => true
  | _, _ => false
  end.

(** Modelled from the spec: [janitor.utils.check] is imported from a module
    that is not part of these sources.  It accepts a value that is an
    instance of one of the expected types ([callable] standing for "can be
    called") and otherwise fails with an invalid-argument error that names
    the checked item. *)
Definition check (varname : string) (v : value) (expected_types : list pytype)
  : res unit :=
  if existsb (isinstance v) expected_types then OK tt
  else Err (CheckFailed varname).

(** The record built by [_tupled]: a request [(col, func, name)]. *)
Record Request : Type := _tupled_kw {
  col : value;
  func : value;
  name : value
}.

(** Modelled from the spec: [_tupled] comes from
    [janitor.functions.utils], which is not part of these sources.  It
    destructures a tuple into [(col, func, name)], the name being absent
    ([None]) for a tuple of two elements. *)
Definition _tupled (arg : list value) : res Request :=
  match arg with
  | [c; f] => OK (_tupled_kw c f VNone)
  | [c; f; n] => OK (_tupled_kw c f n)
  | _ => Err (TypeError "_tupled() got an unexpected number of arguments")
  end.

(** ** Column headers and tables *)

(** A header is an ordered list of levels, every level an ordered list of
    labels, one per column.  [multi] tells a [MultiIndex] (whose column keys
    are tuples) from a flat [Index]. *)
Record Index : Type := mkIndex {
  multi : bool;
  levels : list (list value)
}.

Definition nlevels (ix : Index) : nat := length (levels ix).

Definition Index_size (ix : Index) : nat := length (hd [] (levels ix)).

Definition get_level_values (ix : Index) (n : nat) : list value :=
  nth n (levels ix) [].

(** [pd.MultiIndex.from_arrays(arrays)] *)
Definition from_arrays (arrays : list (list value)) : Index :=
  mkIndex true arrays.

Definition as_tuple (v : value) : option (list value) :=
  match v with VTuple xs => Some xs | _ => None end.

(** [pd.MultiIndex.from_tuples(rows)]: level [i] collects the [i]-th
    component of every tuple. *)
Definition from_tuples (rows : list (list value)) : Index :=
  mkIndex true
    (map (fun i => map (fun r => nth i r VNone) rows)
         (seq 0 (length (hd [] rows)))).

(** The index over a list of labels: a list made of tuples only becomes a
    [MultiIndex], any other list a flat index over its elements. *)
Definition index_over (data : list value) : Index :=
  match mapM as_tuple data with
  | Some (r :: rows) => from_tuples (r :: rows)
  | _ => mkIndex false [data]
  end.

(** [hash(v)] succeeds: lists, dictionaries and dataframes cannot be
    hashed, and a tuple can only if all of its components can. *)
Fixpoint hashable (v : value) : bool :=
  let fix all_hashable (xs : list value) : bool :=
    match xs with
    | [] => true
    | x :: xs' => hashable x && all_hashable xs'
    end in
  match v with
  | VList _ | VDict _ | VFrame _ => false
  | VTuple xs => all_hashable xs
  | _ => true
  end.

(** [pd.Index(data)]: building the index hashes the labels, and raises a
    [TypeError] on a label that cannot be hashed. *)
Definition pd_Index (data : list value) : res Index :=
  if forallb hashable data then OK (index_over data)
  else Err (TypeError "unhashable type").

(** The key of column [j], as [list(frame.columns)] shows it. *)
Definition column_key (ix : Index) (j : nat) : value :=
  if multi ix then VTuple (map (fun lv => nth j lv VNone) (levels ix))
  else nth j (hd [] (levels ix)) VNone.

Definition column_keys (ix : Index) : list value :=
  map (column_key ix) (seq 0 (Index_size ix)).

Record DataFrame : Type := mkFrame {
  columns : Index;
  index : Index;
  cells : list (list value)
}.

Definition with_columns (ix : Index) (f : DataFrame) : DataFrame :=
  mkFrame ix (index f) (cells f).

(** ** Computations over the store of tables *)

Abbreviation Heap := (gmap loc DataFrame).

Definition M (A : Type) : Type := Heap -> res A * Heap.

Definition ret {A} (a : A) : M A := fun h => (OK a, h).

Definition raise {A} (e : Error) : M A := fun h => (Err e, h).

Definition bind {A B} (m : M A) (k : A -> M B) : M B :=
  fun h =>
    match m h with
    | (OK a, h') => k a h'
    | (Err e, h') => (Err e, h')
    end.

Notation "'let*' x ':=' m 'in' k" := (bind m (fun x => k))
  (at level 10, x name, m at level 100, k at level 200).

Notation "m ';;;' k" := (bind m (fun _ => k))
  (at level 100, k at level 200, right associativity).

Definition lift {A} (r : res A) : M A := fun h => (r, h).

(** [try: m except AttributeError: handler] *)
Definition try_except_AttributeError {A} (m : M A) (handler : M A) : M A :=
  fun h =>
    match m h with
    | (Err (AttributeError _), h') => handler h'
    | r => r
    end.

Fixpoint mapM_ {A} (f : A -> M unit) (xs : list A) : M unit :=
  match xs with
  | [] => ret tt
  | x :: xs' => f x ;;; mapM_ f xs'
  end.

Fixpoint forM {A B} (xs : list A) (f : A -> M B) : M (list B) :=
  match xs with
  | [] => ret []
  | x :: xs' =>
      let* y := f x in
      let* ys := forM xs' f in
      ret (y :: ys)
  end.

Fixpoint foldM {A B} (f : B -> A -> M B) (xs : list A) (acc : B) : M B :=
  match xs with
  | [] => ret acc
  | x :: xs' => let* acc' := f acc x in foldM f xs' acc'
  end.

(** Reading a table through a reference. *)
Definition deref (l : loc) : M DataFrame :=
  fun h =>
    match h !! l with
    | Some f => (OK f, h)
    | None => (Err (Dangling l), h)
    end.

(** [frame.columns = ix] *)
Definition set_columns (l : loc) (ix : Index) : M unit :=
  fun h =>
    match h !! l with
    | Some f => (OK tt, <[l := with_columns ix f]> h)
    | None => (Err (Dangling l), h)
    end.

(** [x[i]] on a list. *)
Definition getitem {A} (xs : list A) (i : nat) : res A :=
  match xs !! i with
  | Some x => OK x
  | None => Err (IndexError "list index out of range")
  end.

(** [len(x)] and iteration over a tuple or a list. *)
Definition items (v : value) : list value :=
  match v with
  | VTuple xs => xs
  | VList xs => xs
  | _ => []
  end.

(** [v == s] for a string literal [s]. *)
Definition eq_str (v : value) (s : string) : bool :=
  match v with
  | VStr s' => String.eqb s' s
  | _ => false
  end.

(** ** The collaborators *)

(** What [get_index_labels] hands back: one label or an array of labels.
    A result that is neither (a bare tuple is no scalar and has no
    [tolist]) makes the coercion that follows raise at once; the two
    steps are taken together, and such a result is a failure of the
    resolution. *)
Inductive Labels : Type :=
| Scalar (v : value)
| Array (vs : list value).

(** [[out] if is_scalar(out) else out.tolist()] *)
Definition tolist (sel : Labels) : list value :=
  match sel with
  | Scalar v => [v]
  | Array vs => vs
  end.

(** How the dataframe is grouped: by a list of keys, or with the entries
    of a dictionary passed as keyword arguments. *)
Inductive groupspec : Type :=
| ByKeys (keys : list value)
| ByConfig (kwargs : list (string * value)).

Record GroupBy : Type := mkGroupBy {
  gb_obj : loc;
  gb_by : groupspec
}.

(** The object the aggregations run against: the dataframe itself or the
    grouping handle. *)
Inductive view : Type :=
| Whole (df : loc)
| Grouped (g : GroupBy).

(** The selector resolution of the package, the grouping runtime, the
    aggregation primitive ([val[cols].agg(fn)]), the application of a
    callable ([val[cols].pipe(fn)]) and [pd.concat(frames, axis)]. *)
Class Runtime : Type := {
  get_index_labels : value -> loc -> M Labels;
  groupby : loc -> groupspec -> M GroupBy;
  agg : view -> list value -> value -> M value;
  pipe : view -> list value -> value -> M value;
  pd_concat : list value -> nat -> M value
}.

(** ** The function [summarise] *)

Section Summarise.

Context `{rt : Runtime}.

Definition arity_low_msg (num : nat) : string :=
  "The tuple argument at position " +:+ pretty num +:+
  " should have at least a column and an aggregation function.".

Definition arity_high_msg (num : nat) : string :=
  "The tuple argument at position " +:+ pretty num +:+
  " should be a maximum length of 3.".

Definition func_varname (num : nat) : string :=
  "func in tuple argument at position " +:+ pretty num.

Definition name_varname (num : nat) : string :=
  "name in tuple argument at position " +:+ pretty num.

Definition describe_msg : string :=
  "Kindly pass `describe` as a single func in a separate tuple".

Definition ambiguous_msg : string :=
  "The truth value of a DataFrame is ambiguous.".

(** The two length tests on the tuple at position [num]. *)
Definition check_arity (num : nat) (arg : list value) : res unit :=
  if length arg <? 2 then Err (ValueError (arity_low_msg num))
  else if 3 <? length arg then Err (ValueError (arity_high_msg num))
  else OK tt.

(** A single string or callable is wrapped into a list; then [func] itself
    is checked, not its elements. *)
Definition normalise_func (num : nat) (f : value) : res value :=
  let func := if is_str f || callable f then VList [f] else f in
  let? _ := check (func_varname num) func [Tstr; Tcallable; Tlist] in
  OK func.

(** [if val.name: check(..., val.name, [Hashable])] *)
Definition normalise_name (num : nat) (n : value) : res unit :=
  let? named := truthy n in
  if named then check (name_varname num) n [THashable] else OK tt.

(** The body of the first loop, for the argument at position [num]. *)
Definition normalise_arg (num : nat) (arg : value) : res Request :=
  let? _ := check "The summarise argument" arg [Ttuple] in
  let? _ := check_arity num (items arg) in
  let? val := _tupled (items arg) in
  let? func := normalise_func num (func val) in
  let? _ := normalise_name num (name val) in
  OK (_tupled_kw (col val) func (name val)).

(** [for num, arg in enumerate(args)], counting from [num]. *)
Fixpoint normalise_from (num : nat) (args : list value) : res (list Request) :=
  match args with
  | [] => OK []
  | arg :: rest =>
      let? ag := normalise_arg num arg in
      let? aggs := normalise_from (S num) rest in
      OK (ag :: aggs)
  end.

Definition normalise (args : list value) : res (list Request) :=
  normalise_from 0 args.

(** The grouping: the view the aggregations run against, and
    [by_is_true]. *)
Definition resolve_by (df : loc) (by_ : value) : M (view * bool) :=
  let* grouped := lift (truthy by_) in
  if grouped then
    match by_ with
    | VDict kwargs =>
        let* val := groupby df (ByConfig kwargs) in
        ret (Grouped val, true)
    | _ =>
        let* sel := get_index_labels by_ df in
        let* val := groupby df (ByKeys (tolist sel)) in
        ret (Grouped val, true)
    end
  else ret (Whole df, false).

(** The [except AttributeError] branch: every callable is applied on its
    own when all the functions are callables; otherwise nothing is
    assigned and [out] still holds the resolved column labels. *)
Definition fallback (val : view) (out : list value) (ag : Request) : M value :=
  if forallb callable (items (func ag)) then
    let* outs := forM (items (func ag)) (pipe val out) in
    ret (if length outs =? 1 then nth 0 outs VNone else VList outs)
  else ret (VList out).

(** [describe] is applied on its own, any other function list goes to the
    aggregation primitive in one call. *)
Definition aggregate (val : view) (out : list value) (ag : Request) : M value :=
  let* f0 := lift (getitem (items (func ag)) 0) in
  if eq_str f0 "describe" then agg val out f0
  else try_except_AttributeError (agg val out (func ag)) (fallback val out ag).

(** [if ag.name and isinstance(out, pd.DataFrame) and len(out.columns) == 1] *)
Definition rename (ag : Request) (out : value) : M unit :=
  let* named := lift (truthy (name ag)) in
  if named then
    match out with
    | VFrame l =>
        let* frame := deref l in
        if Index_size (columns frame) =? 1
        then let* ix := lift (pd_Index [name ag]) in set_columns l ix
        else ret tt
    | _ => ret tt
    end
  else ret tt.

(** [aggs_.extend(out)] for a list, [aggs_.append(out)] otherwise. *)
Definition collect (aggs_ : list value) (out : value) : list value :=
  match out with
  | VList xs => aggs_ ++ xs
  | _ => aggs_ ++ [out]
  end.

(** ["describe" in fs]: the elements are compared with the string one
    after the other, up to the first match; comparing a dataframe yields
    no truth value and raises. *)
Fixpoint contains_describe (fs : list value) : res bool :=
  match fs with
  | [] => OK false
  | VFrame _ :: _ => Err (ValueError ambiguous_msg)
  | f :: fs' =>
      if eq_str f "describe" then OK true else contains_describe fs'
  end.

(** [("describe" in ag.func) and (len(ag.func) > 1)] *)
Definition describe_conflict (ag : Request) : res bool :=
  let? found := contains_describe (items (func ag)) in
  OK (found && (1 <? length (items (func ag)))).

(** The body of the second loop. *)
Definition run_request (df : loc) (val : view) (aggs_ : list value)
  (ag : Request) : M (list value) :=
  let* sel := get_index_labels (col ag) df in
  let out := tolist sel in
  let* conflict := lift (describe_conflict ag) in
  if conflict
  then raise (ValueError describe_msg)
  else
    let* out := aggregate val out ag in
    rename ag out ;;;
    ret (collect aggs_ out).

Definition run_requests (df : loc) (val : view) (aggs : list Request)
  (aggs_ : list value) : M (list value) :=
  foldM (run_request df val) aggs aggs_.

(** [frame.columns] *)
Definition columns_of (frame : value) : M Index :=
  match frame with
  | VFrame l => let* f := deref l in ret (columns f)
  | _ => raise (AttributeError "object has no attribute 'columns'")
  end.

Definition assign_columns (frame : value) (ix : Index) : M unit :=
  match frame with
  | VFrame l => set_columns l ix
  | _ => raise (AttributeError "object has no attribute 'columns'")
  end.

(** The body of the padding loop; [len_no_of_levels] is the number of
    distinct header depths. *)
Definition pad (len_no_of_levels : nat) (frame : value) : M unit :=
  let* cols := columns_of frame in
  if nlevels cols <? len_no_of_levels then
    let frame_nlevels := nlevels cols in
    let size_ := len_no_of_levels - frame_nlevels in
    let extra := replicate size_ (replicate (Index_size cols) (VStr "")) in
    let columns_ := map (get_level_values cols) (seq 0 frame_nlevels) in
    assign_columns frame (from_arrays (columns_ ++ extra))
  else ret tt.

(** Header reconciliation: the set of depths, then the padding loop. *)
Definition reconcile (aggs_ : list value) : M unit :=
  let* depths := forM aggs_ (fun frame =>
                   let* cols := columns_of frame in ret (nlevels cols)) in
  let no_of_levels : gset nat := list_to_set depths in
  if 1 <? size no_of_levels
  then mapM_ (pad (size no_of_levels)) aggs_
  else ret tt.

(** [axis=1] when grouping was requested, [axis=0] otherwise. *)
Definition merge_axis (by_is_true : bool) : nat :=
  if by_is_true then 1 else 0.

Definition assemble (by_is_true : bool) (aggs_ : list value) : M value :=
  if 1 <? length aggs_ then
    reconcile aggs_ ;;;
    pd_concat aggs_ (merge_axis by_is_true)
  else lift (getitem aggs_ 0).

Definition summarise (df : loc) (args : list value) (by_ : value) : M value :=
  if is_nil args
  then raise (ValueError "Kindly provide at least one aggregation tuple.")
  else
    let* aggs := lift (normalise args) in
    let* grouping := resolve_by df by_ in
    let* aggs_ := run_requests df grouping.1 aggs [] in
    assemble grouping.2 aggs_.

End Summarise.

(** ** A small dataframe runtime

    A reference implementation of the collaborators, small enough to run
    inside the logic: integer reductions, grouping by key columns in order
    of first appearance, and concatenation along either axis.  Callables
    are numbered and looked up in a table of behaviours. *)

Module Sample.

Fixpoint value_eqb (a b : value) {struct a} : bool :=
  let fix all_eqb (xs ys : list value) {struct xs} : bool :=
    match xs, ys with
    | [], [] => true
    | x :: xs', y :: ys' => value_eqb x y && all_eqb xs' ys'
    | _, _ => false
    end in
  match a, b with
  | VNone, VNone => true
  | VBool x, VBool y => Bool.eqb x y
  | VInt x, VInt y => (x =? y)%Z
  | VStr x, VStr y => String.eqb x y
  | VCallable x, VCallable y => x =? y
  | VTuple xs, VTuple ys => all_eqb xs ys
  | VList xs, VList ys => all_eqb xs ys
  | VFrame x, VFrame y => x =? y
  | _, _ => false
  end.

Fixpoint distinct (xs : list value) : list value :=
  match xs with
  | [] => []
  | x :: xs' => x :: filter (fun y => negb (value_eqb x y)) (distinct xs')
  end.

Fixpoint position (k : value) (keys : list value) : option nat :=
  match keys with
  | [] => None
  | k' :: keys' => if value_eqb k k' then Some 0 else S <$> position k keys'
  end.

(** What a numbered callable does. *)
Inductive behaviour : Type :=
| Reducer (label : string) (f : list Z -> Z)
| OnTable
| Captured (l : loc).

Definition ints (xs : list value) : list Z :=
  omap (fun v => match v with VInt z => Some z | _ => None end) xs.

Definition reduce_with (f : list Z -> Z) (xs : list value) : value :=
  VInt (f (ints xs)).

Definition extremum (pick : Z -> Z -> Z) (zs : list Z) : Z :=
  match zs with
  | [] => 0%Z
  | z :: zs' => foldr pick z zs'
  end.

Definition builtin (s : string) : option (list Z -> Z) :=
  if String.eqb s "sum" then Some (foldr Z.add 0%Z)
  else if String.eqb s "count" then Some (fun zs => Z.of_nat (length zs))
  else if String.eqb s "min" then Some (extremum Z.min)
  else if String.eqb s "max" then Some (extremum Z.max)
  else None.

(** A function usable by the aggregation primitive, with its label. *)
Definition reducer (callables : list behaviour) (fn : value)
  : res (value * (list Z -> Z)) :=
  match fn with
  | VStr s =>
      match builtin s with
      | Some f => OK (VStr s, f)
      | None => Err (AttributeError (s +:+ " is not a valid function"))
      end
  | VCallable c =>
      match callables !! c with
      | Some (Reducer label f) => OK (VStr label, f)
      | Some _ => Err (AttributeError "object has no attribute")
      | None => Err (TypeError "unknown callable")
      end
  | _ => Err (TypeError "object is not callable")
  end.

Fixpoint reducers (callables : list behaviour) (fns : list value)
  : res (list (value * (list Z -> Z))) :=
  match fns with
  | [] => OK []
  | fn :: fns' =>
      let? r := reducer callables fn in
      let? rs := reducers callables fns' in
      OK (r :: rs)
  end.

Definition take_columns (js : list nat) (row : list value) : list value :=
  map (fun j => nth j row VNone) js.

Definition sub_index (ix : Index) (js : list nat) : Index :=
  mkIndex (multi ix) (map (take_columns js) (levels ix)).

Definition column_values (f : DataFrame) (j : nat) : list value :=
  map (fun row => nth j row VNone) (cells f).

Fixpoint positions (f : DataFrame) (cols : list value) : res (list nat) :=
  match cols with
  | [] => OK []
  | c :: cols' =>
      match position c (column_keys (columns f)) with
      | Some j => let? js := positions f cols' in OK (j :: js)
      | None => Err (KeyError "column not found")
      end
  end.

(** Ungrouped: one row per function, the selected columns as they are. *)
Definition agg_whole (f : DataFrame) (js : list nat)
  (rs : list (value * (list Z -> Z))) : DataFrame :=
  mkFrame (sub_index (columns f) js)
          (mkIndex false [map fst rs])
          (map (fun r => map (fun j => reduce_with r.2 (column_values f j)) js) rs).

Definition row_key (ks : list nat) (row : list value) : value :=
  match ks with
  | [k] => nth k row VNone
  | _ => VTuple (take_columns ks row)
  end.

Definition group_keys (f : DataFrame) (ks : list nat) : list value :=
  distinct (map (row_key ks) (cells f)).

Definition group_rows (f : DataFrame) (ks : list nat) (g : value)
  : list (list value) :=
  filter (fun row => value_eqb g (row_key ks row)) (cells f).

(** Grouped: one row per group; every selected column fans out into one
    column per function, under an extra header level. *)
Definition agg_grouped (f : DataFrame) (ks js : list nat)
  (rs : list (value * (list Z -> Z))) : DataFrame :=
  let sel := sub_index (columns f) js in
  mkFrame
    (mkIndex true
       (map (fun lv => concat (map (replicate (length rs)) lv)) (levels sel)
        ++ [concat (replicate (length js) (map fst rs))]))
    (index_over (group_keys f ks))
    (map (fun g =>
            concat (map (fun j =>
              map (fun r =>
                reduce_with r.2 (map (fun row => nth j row VNone)
                                     (group_rows f ks g))) rs) js))
         (group_keys f ks)).

(** A function of the whole selection: a copy of the selected columns,
    reduced to the first row of every group when grouped. *)
Definition table_whole (f : DataFrame) (js : list nat) : DataFrame :=
  mkFrame (sub_index (columns f) js) (index f) (map (take_columns js) (cells f)).

Definition table_grouped (f : DataFrame) (ks js : list nat) : DataFrame :=
  mkFrame (sub_index (columns f) js)
          (index_over (group_keys f ks))
          (map (fun g => take_columns js (hd [] (group_rows f ks g)))
               (group_keys f ks)).

Definition keys_of (by_ : groupspec) : res (list value) :=
  match by_ with
  | ByKeys keys => OK keys
  | ByConfig kwargs =>
      match List.find (fun kv => String.eqb kv.1 "by") kwargs with
      | Some (_, VList keys) => OK keys
      | Some (_, v) => OK [v]
      | None => Err (TypeError "You have to supply one of 'by' and 'level'")
      end
  end.

Definition frame_at (h : Heap) (l : loc) : res DataFrame :=
  match h !! l with
  | Some f => OK f
  | None => Err (Dangling l)
  end.

(** The table a view stands for, and the positions of its group keys. *)
Definition open_view (h : Heap) (val : view)
  : res (DataFrame * option (list nat)) :=
  match val with
  | Whole df => let? f := frame_at h df in OK (f, None)
  | Grouped g =>
      let? f := frame_at h (gb_obj g) in
      let? keys := keys_of (gb_by g) in
      let? ks := positions f keys in
      OK (f, Some ks)
  end.

Definition describe_stats : list value :=
  [VStr "count"; VStr "min"; VStr "max"].

Definition agg_table (callables : list behaviour) (h : Heap) (val : view)
  (cols : list value) (fn : value) : res DataFrame :=
  let? opened := open_view h val in
  let? js := positions opened.1 cols in
  let? rs := reducers callables
               (if eq_str fn "describe" then describe_stats else items fn) in
  match opened.2 with
  | None => OK (agg_whole opened.1 js rs)
  | Some ks => OK (agg_grouped opened.1 ks js rs)
  end.

Definition alloc (f : DataFrame) : M value :=
  fun h => let l := fresh (dom h) in (OK (VFrame l), <[l := f]> h).

Definition build (make : Heap -> res DataFrame) : M value :=
  fun h =>
    match make h with
    | OK f => alloc f h
    | Err e => (Err e, h)
    end.

Definition sample_pipe (callables : list behaviour) (val : view)
  (cols : list value) (fn : value) : M value :=
  match fn with
  | VCallable c =>
      match callables !! c with
      | Some (Reducer _ _) =>
          build (fun h => agg_table callables h val cols (VList [fn]))
      | Some OnTable =>
          build (fun h =>
            let? opened := open_view h val in
            let? js := positions opened.1 cols in
            match opened.2 with
            | None => OK (table_whole opened.1 js)
            | Some ks => OK (table_grouped opened.1 ks js)
            end)
      | Some (Captured l) => ret (VFrame l)
      | None => raise (TypeError "unknown callable")
      end
  | _ => raise (TypeError "object is not callable")
  end.

Definition is_label (v : value) : bool :=
  match v with
  | VList _ | VDict _ | VFrame _ => false
  | _ => true
  end.

(** A label that names a column of [f]. *)
Definition known_label (f : DataFrame) (v : value) : bool :=
  is_label v
  && match position v (column_keys (columns f)) with
     | Some _ => true
     | None => false
     end.

(** Selection by labels: a list of labels gives an array, a single label
    comes back as it is, and a label that names no column is a
    [KeyError].  A bare tuple is no scalar and has no [tolist]: the
    coercion that follows the selection fails on it. *)
Definition sample_get_index_labels (sel : value) (df : loc) : M Labels :=
  fun h =>
    match frame_at h df with
    | Err e => (Err e, h)
    | OK f =>
        match sel with
        | VTuple _ =>
            (Err (AttributeError "'tuple' object has no attribute 'tolist'"),
             h)
        | VList vs =>
            if forallb (known_label f) vs then (OK (Array vs), h)
            else (Err (KeyError "no match for the selection"), h)
        | _ =>
            if known_label f sel then (OK (Scalar sel), h)
            else (Err (KeyError "no match for the selection"), h)
        end
    end.

Definition sample_groupby (df : loc) (by_ : groupspec) : M GroupBy :=
  fun h =>
    match open_view h (Grouped (mkGroupBy df by_)) with
    | OK _ => (OK (mkGroupBy df by_), h)
    | Err e => (Err e, h)
    end.

Fixpoint frames_at (h : Heap) (frames : list value) : res (list DataFrame) :=
  match frames with
  | [] => OK []
  | VFrame l :: frames' =>
      let? f := frame_at h l in
      let? fs := frames_at h frames' in
      OK (f :: fs)
  | _ :: _ => Err (TypeError "cannot concatenate a non-table object")
  end.

Definition same_depth (ixs : list Index) : bool :=
  match ixs with
  | [] => true
  | ix :: ixs' => forallb (fun ix' => nlevels ix' =? nlevels ix) ixs'
  end.

(** Headers put end to end: level by level when the depths agree, as a
    flat index of column keys otherwise. *)
Definition join_indexes (ixs : list Index) : Index :=
  if same_depth ixs then
    mkIndex (existsb multi ixs)
      (map (fun n => concat (map (fun ix => get_level_values ix n) ixs))
           (seq 0 (nlevels (hd (mkIndex false []) ixs))))
  else mkIndex false [concat (map column_keys ixs)].

Definition realign (keys : list value) (f : DataFrame) : list (list value) :=
  map (fun row =>
         map (fun k =>
                match position k (column_keys (columns f)) with
                | Some j => nth j row VNone
                | None => VNone
                end) keys)
      (cells f).

Definition concat_tables (fs : list DataFrame) (axis : nat) : DataFrame :=
  if axis =? 1 then
    let rows := seq 0 (length (cells (hd (mkFrame (mkIndex false []) (mkIndex false []) []) fs))) in
    mkFrame (join_indexes (map columns fs))
            (index (hd (mkFrame (mkIndex false []) (mkIndex false []) []) fs))
            (map (fun i => concat (map (fun f => nth i (cells f) []) fs)) rows)
  else
    let keys := distinct (concat (map (fun f => column_keys (columns f)) fs)) in
    mkFrame (if forallb (fun f => length (column_keys (columns f)) =? length keys) fs
             then columns (hd (mkFrame (mkIndex false []) (mkIndex false []) []) fs)
             else index_over keys)
            (join_indexes (map index fs))
            (concat (map (realign keys) fs)).

Definition sample_concat (frames : list value) (axis : nat) : M value :=
  build (fun h => let? fs := frames_at h frames in OK (concat_tables fs axis)).

Definition runtime (callables : list behaviour) : Runtime := {|
  get_index_labels := sample_get_index_labels;
  groupby := sample_groupby;
  agg := fun val cols fn => build (fun h => agg_table callables h val cols fn);
  pipe := sample_pipe callables;
  pd_concat := sample_concat
|}.

(** The dataframe of the examples in the docstring. *)
Definition athletes : DataFrame :=
  mkFrame
    (mkIndex false [[VStr "avg_jump"; VStr "avg_run"; VStr "avg_swim";
                     VStr "combine_id"; VStr "category"]])
    (mkIndex false [[VInt 0; VInt 1; VInt 2; VInt 3; VInt 4; VInt 5]])
    [[VInt 3; VInt 3; VInt 2; VInt 100200; VStr "heats"];
     [VInt 4; VInt 4; VInt 1; VInt 100200; VStr "heats"];
     [VInt 1; VInt 1; VInt 2; VInt 101200; VStr "finals"];
     [VInt 2; VInt 3; VInt 2; VInt 101200; VStr "finals"];
     [VInt 3; VInt 2; VInt 3; VInt 102201; VStr "heats"];
     [VInt 4; VInt 4; VInt 4; VInt 103202; VStr "finals"]].

(** A dataframe with a single column. *)
Definition runs : DataFrame :=
  mkFrame (mkIndex false [[VStr "avg_run"]])
          (mkIndex false [[VInt 0; VInt 1; VInt 2]])
          [[VInt 3]; [VInt 4]; [VInt 1]].

(** A dataframe whose header has two levels. *)
Definition nested : DataFrame :=
  mkFrame
    (mkIndex true [[VStr "avg"; VStr "avg"; VStr "id"];
                   [VStr "jump"; VStr "run"; VStr "category"]])
    (mkIndex false [[VInt 0; VInt 1; VInt 2]])
    [[VInt 3; VInt 3; VStr "heats"];
     [VInt 4; VInt 4; VStr "heats"];
     [VInt 1; VInt 1; VStr "finals"]].

(** No callable of the table hands back the object stored at [df]. *)
Definition no_capture (df : loc) (callables : list behaviour) : bool :=
  forallb (fun b => match b with
                    | Captured l => negb (l =? df)
                    | _ => true
                    end) callables.

(** Callable 0 reduces a column to its total, callable 1 works on the
    whole selection. *)
Definition callables : list behaviour :=
  [Reducer "total" (foldr Z.add 0%Z); OnTable].

(** Callable 0 is a closure that hands back the dataframe stored at
    location 0, whatever it is given. *)
Definition closures : list behaviour := [Captured 0].

End Sample.

(** ** Notions used in the statements *)

(** A reference to a table that is in the store. *)
Definition is_table (h : Heap) (v : value) : Prop :=
  exists l f, v = VFrame l /\ h !! l = Some f.

(** The header depth of every partial result, where it is a table. *)
Definition header_depths (h : Heap) (frames : list value) : list (option nat) :=
  map (fun v => match v with
                | VFrame l => (fun f => nlevels (columns f)) <$> h !! l
                | _ => None
                end) frames.

(** Two requests that differ at most in their names, both names being
    falsy when they differ. *)
Definition same_but_falsy_name (ag ag' : Request) : Prop :=
  col ag = col ag' /\ func ag = func ag'
  /\ (name ag = name ag' \/ (falsy (name ag) /\ falsy (name ag'))).

(** Every table of [h] is still in [h'], with the same index and cells:
    at most headers differ. *)
Definition same_data (h h' : Heap) : Prop :=
  forall l f, h !! l = Some f ->
    exists f', h' !! l = Some f' /\ index f' = index f /\ cells f' = cells f.

(** A computation that changes nothing but headers. *)
Definition steady {A} (m : M A) : Prop :=
  forall h, same_data h (m h).2.

(** The header of [f] with [k] levels of empty labels appended. *)
Definition padded (k : nat) (f : DataFrame) : DataFrame :=
  with_columns
    (from_arrays (levels (columns f)
                  ++ replicate k (replicate (Index_size (columns f)) (VStr ""))))
    f.

(** [v] is the dataframe object stored at [df]. *)
Definition is_ref (df : loc) (v : value) : bool :=
  match v with
  | VFrame l => l =? df
  | _ => false
  end.

(** [v] is that object, or a list with that object among its elements. *)
Definition exposes (df : loc) (v : value) : bool :=
  is_ref df v
  || match v with
     | VList xs => existsb (is_ref df) xs
     | _ => false
     end.

(** A computation that leaves the table at [df] as it is. *)
Definition keeps {A} (df : loc) (m : M A) : Prop :=
  forall h, is_Some (h !! df) -> (m h).2 !! df = h !! df.

(** A computation whose result is never the object at [df] itself. *)
Definition yields_other (df : loc) (m : M value) : Prop :=
  forall h v, is_Some (h !! df) -> (m h).1 = OK v -> exposes df v = false.

(** The contract under which the collaborators treat the input dataframe
    as read-only and hand back objects of their own: none of them modifies
    the table at [df], the resolved labels are not that object, and what
    the aggregation primitive or a callable returns is not that object. *)
Record isolates (rt : Runtime) (df : loc) : Prop := {
  labels_keep : forall sel l, keeps df (@get_index_labels rt sel l);
  labels_other : forall sel l h ls,
    is_Some (h !! df) ->
    (@get_index_labels rt sel l h).1 = OK ls ->
    existsb (is_ref df) (tolist ls) = false;
  groupby_keeps : forall l by_, keeps df (@groupby rt l by_);
  agg_keeps : forall val cols fn, keeps df (@agg rt val cols fn);
  agg_other : forall val cols fn, yields_other df (@agg rt val cols fn);
  pipe_keeps : forall val cols fn, keeps df (@pipe rt val cols fn);
  pipe_other : forall val cols fn, yields_other df (@pipe rt val cols fn);
  concat_keeps : forall frames axis, keeps df (@pd_concat rt frames axis)
}.

(** Running [m] keeps the table [f0] at [df], and a result satisfies [Q]. *)
Definition preserves {A} (df : loc) (f0 : DataFrame) (m : M A)
  (Q : A -> Prop) : Prop :=
  forall h, h !! df = Some f0 ->
    (m h).2 !! df = Some f0 /\ forall a, (m h).1 = OK a -> Q a.

(** What the padding loop makes of one table when [k] depths were seen. *)
Definition padded_to (k : nat) (f : DataFrame) : DataFrame :=
  if nlevels (columns f) <? k
  then padded (k - nlevels (columns f)) f
  else f.

(** [len(no_of_levels)]: how many different header depths the tables have. *)
Definition distinct_depths (h : Heap) (frames : list value) : nat :=
  size (list_to_set (omap id (header_depths h frames)) : gset nat).

(** Collaborators that change nothing but headers of the tables they are
    given. *)
Record steady_runtime (rt : Runtime) : Prop := {
  labels_steady : forall sel l, steady (@get_index_labels rt sel l);
  groupby_steady : forall l by_, steady (@groupby rt l by_);
  agg_steady : forall val cols fn, steady (@agg rt val cols fn);
  pipe_steady : forall val cols fn, steady (@pipe rt val cols fn);
  concat_steady : forall frames axis, steady (@pd_concat rt frames axis)
}.

(** The sample runtime with callables that work on the whole selection
    and hand back an empty list. *)
Definition hollow_runtime : Runtime := {|
  get_index_labels := Sample.sample_get_index_labels;
  groupby := Sample.sample_groupby;
  agg := fun val cols fn =>
           Sample.build (fun h =>
             Sample.agg_table [Sample.OnTable] h val cols fn);
  pipe := fun _ _ _ => ret (VList []);
  pd_concat := Sample.sample_concat
|}.

(** * Properties *)

(** ** Text of the error messages *)

Lemma list_ascii_of_string_app (s t : string) :
  String.list_ascii_of_string (s +:+ t)
  = String.list_ascii_of_string s ++ String.list_ascii_of_string t.
Proof.
  induction s as [|a s IH]; simpl; [reflexivity|].
  f_equal. exact IH.
Qed.

Lemma string_app_inv_tail (s1 s2 t : string) :
  s1 +:+ t = s2 +:+ t -> s1 = s2.
Proof.
  intros E.
  apply (f_equal String.list_ascii_of_string) in E.
  rewrite !list_ascii_of_string_app in E.
  apply app_inv_tail in E.
  rewrite <- (String.string_of_list_ascii_of_string s1),
          <- (String.string_of_list_ascii_of_string s2).
  now rewrite E.
Qed.

Lemma framed_number_inj (pre post : string) (i j : nat) :
  pre +:+ pretty i +:+ post = pre +:+ pretty j +:+ post -> i = j.
Proof.
  intros E.
  apply (inj (String.app pre)) in E.
  apply string_app_inv_tail in E.
  exact (inj pretty _ _ E).
Qed.

Lemma arity_low_msg_inj (i j : nat) :
  arity_low_msg i = arity_low_msg j -> i = j.
Proof. apply framed_number_inj. Qed.

Lemma arity_high_msg_inj (i j : nat) :
  arity_high_msg i = arity_high_msg j -> i = j.
Proof. apply framed_number_inj. Qed.

Lemma func_varname_inj (i j : nat) :
  func_varname i = func_varname j -> i = j.
Proof.
  unfold func_varname. intros E.
  apply (inj (String.app _)) in E.
  exact (inj pretty _ _ E).
Qed.

(** ** Laws of the store monad *)

Lemma bind_OK {A B} (m : M A) (k : A -> M B) h a h1 :
  m h = (OK a, h1) -> bind m k h = k a h1.
Proof. unfold bind. now intros ->. Qed.

Lemma foldM_app {A B} (f : B -> A -> M B) (xs ys : list A) (acc : B) h :
  foldM f (xs ++ ys) acc h
  = bind (foldM f xs acc) (fun acc' => foldM f ys acc') h.
Proof.
  revert acc h. induction xs as [|x xs IH]; intros acc h; simpl.
  - reflexivity.
  - unfold bind. destruct (f acc x h) as [[acc'|e] h1]; [|reflexivity].
    rewrite IH. reflexivity.
Qed.

(** ** The normaliser *)

Section Normaliser.

Lemma check_arity_pass (num : nat) (xs : list value) :
  check_arity num xs = OK tt <-> 2 <= length xs <= 3.
Proof.
  unfold check_arity.
  destruct (Nat.ltb_spec (length xs) 2), (Nat.ltb_spec 3 (length xs));
    split; intros; try discriminate; try reflexivity; lia.
Qed.

Lemma check_Err (varname : string) (v : value) ts e :
  check varname v ts = Err e -> e = CheckFailed varname.
Proof.
  unfold check. destruct (existsb _ _); intros E; [discriminate|].
  now injection E as <-.
Qed.

Lemma normalise_func_Err (num : nat) (f : value) e :
  normalise_func num f = Err e -> e = CheckFailed (func_varname num).
Proof.
  unfold normalise_func.
  destruct (check (func_varname num) _ _) as [[]|e0] eqn:Ef; simpl;
    [discriminate|].
  intros E. injection E as <-. exact (check_Err _ _ _ _ Ef).
Qed.

Lemma normalise_name_Err (num : nat) (n : value) e :
  normalise_name num n = Err e -> is_InvalidArgument e = true.
Proof.
  unfold normalise_name.
  destruct (truthy n) as [[|]|e0] eqn:Et; simpl.
  - intros E. now rewrite (check_Err _ _ _ _ E).
  - discriminate.
  - intros E. injection E as <-.
    destruct n; simpl in Et; try discriminate. now injection Et as <-.
Qed.

Lemma normalise_arg_Err_invalid (num : nat) (arg : value) e :
  normalise_arg num arg = Err e -> is_InvalidArgument e = true.
Proof.
  unfold normalise_arg.
  destruct (check "The summarise argument" arg _) as [[]|e0] eqn:Ec; simpl.
  2:{ intros E. injection E as <-. now rewrite (check_Err _ _ _ _ Ec). }
  clear Ec.
  destruct (check_arity num (items arg)) as [[]|e1] eqn:Ea; simpl.
  2:{ intros E. injection E as <-. unfold check_arity in Ea.
      destruct (_ <? 2); [now injection Ea as <-|].
      destruct (3 <? _); [now injection Ea as <-|discriminate]. }
  apply check_arity_pass in Ea.
  destruct (items arg) as [|c [|f [|n [|? ?]]]]; simpl in Ea; try lia; simpl.
  - destruct (normalise_func num f) as [fs|e2] eqn:Ef; simpl; [discriminate|].
    intros E. injection E as <-. now rewrite (normalise_func_Err _ _ _ Ef).
  - destruct (normalise_func num f) as [fs|e2] eqn:Ef; simpl.
    2:{ intros E. injection E as <-.
        now rewrite (normalise_func_Err _ _ _ Ef). }
    destruct (normalise_name num n) as [[]|e3] eqn:En; simpl; [discriminate|].
    intros E. injection E as <-. exact (normalise_name_Err _ _ _ En).
Qed.

Lemma normalise_from_app (num : nat) (xs ys : list value) :
  normalise_from num (xs ++ ys)
  = let? a := normalise_from num xs in
    let? b := normalise_from (num + length xs) ys in
    OK (a ++ b).
Proof.
  revert num. induction xs as [|x xs IH]; intros num; simpl.
  - rewrite Nat.add_0_r. now destruct (normalise_from num ys).
  - destruct (normalise_arg num x) as [ag|e]; simpl; [|reflexivity].
    rewrite IH. replace (S num + length xs) with (num + S (length xs)) by lia.
    destruct (normalise_from (S num) xs) as [a|e]; simpl; [|reflexivity].
    now destruct (normalise_from _ ys).
Qed.

Lemma normalise_from_Err_invalid (num : nat) (args : list value) e :
  normalise_from num args = Err e -> is_InvalidArgument e = true.
Proof.
  revert num. induction args as [|x xs IH]; intros num; simpl; [discriminate|].
  destruct (normalise_arg num x) as [ag|e0] eqn:E0; simpl.
  - destruct (normalise_from (S num) xs) as [a|e1] eqn:E1; simpl; [discriminate|].
    intros E. injection E as <-. eauto.
  - intros E. injection E as <-. eapply normalise_arg_Err_invalid; eauto.
Qed.

(** A bad argument makes the whole batch fail; the failure is the one of
    the first bad argument. *)
Lemma normalise_bad_arg (args : list value) (i : nat) (arg : value) e :
  args !! i = Some arg ->
  normalise_arg i arg = Err e ->
  (exists e', normalise args = Err e') /\
  (forall aggs, normalise (take i args) = OK aggs -> normalise args = Err e).
Proof.
  intros Hi He.
  assert (Hlen : length (take i args) = i).
  { apply lookup_lt_Some in Hi. rewrite length_take. lia. }
  assert (Hsplit : args = take i args ++ arg :: drop (S i) args).
  { rewrite <- (take_drop i args) at 1. f_equal.
    now rewrite (drop_S _ _ _ Hi). }
  assert (Hn : normalise_from 0 args
               = match normalise_from 0 (take i args) with
                 | OK _ => Err e
                 | Err e0 => Err e0
                 end).
  { etransitivity; [apply (f_equal (normalise_from 0) Hsplit)|].
    rewrite normalise_from_app, Hlen. simpl. rewrite He.
    now destruct (normalise_from 0 (take i args)). }
  unfold normalise. rewrite Hn.
  destruct (normalise_from 0 (take i args)) as [a|e0].
  - split; [now exists e|]. reflexivity.
  - split; [now exists e0|]. discriminate.
Qed.

Lemma normalise_from_lookup (num : nat) (args : list value) (i : nat)
  (arg : value) aggs :
  args !! i = Some arg ->
  normalise_from num args = OK aggs ->
  exists ag, normalise_arg (num + i) arg = OK ag /\ aggs !! i = Some ag
             /\ normalise_from num (take i args) = OK (take i aggs).
Proof.
  revert num i aggs.
  induction args as [|x xs IH]; intros num i aggs Hi E; [discriminate|].
  simpl in E.
  destruct (normalise_arg num x) as [ag0|] eqn:E0; simpl in E; [|discriminate].
  destruct (normalise_from (S num) xs) as [rest|] eqn:E1; simpl in E;
    [|discriminate].
  injection E as <-.
  destruct i as [|i]; simpl in *.
  - injection Hi as <-. rewrite Nat.add_0_r. now exists ag0.
  - destruct (IH _ _ _ Hi E1) as (ag & Ha & Hl & Ht).
    exists ag. replace (num + S i) with (S num + i) by lia.
    rewrite E0, Ht. now simpl.
Qed.

End Normaliser.

(** ** The function as a pipeline *)

Section Pipeline.

Context `{rt : Runtime}.

Lemma summarise_normalise_Err (df : loc) (args : list value) (by_ : value)
  (h : Heap) e :
  normalise args = Err e -> summarise df args by_ h = (Err e, h).
Proof.
  intros E. unfold summarise.
  destruct args as [|a args]; [discriminate|]. simpl is_nil. cbv iota.
  unfold bind, lift. now rewrite E.
Qed.

Lemma summarise_unfold (df : loc) (args : list value) (by_ : value)
  (h : Heap) aggs :
  args <> [] ->
  normalise args = OK aggs ->
  summarise df args by_ h
  = (let* grouping := resolve_by df by_ in
     let* aggs_ := run_requests df grouping.1 aggs [] in
     assemble grouping.2 aggs_) h.
Proof.
  intros Hne E. unfold summarise.
  destruct args as [|a args]; [congruence|]. simpl is_nil. cbv iota.
  unfold bind at 1. unfold lift. now rewrite E.
Qed.

Lemma resolve_by_falsy (df : loc) (by_ : value) (h : Heap) :
  falsy by_ -> resolve_by df by_ h = (OK (Whole df, false), h).
Proof.
  intros F. unfold resolve_by, bind, lift. now rewrite F.
Qed.

End Pipeline.

(** ** C7: the arity of an aggregation tuple *)

(** C7.  A tuple at position [i] with fewer than two or more than three
    elements is rejected by the normaliser with a [ValueError] whose
    message carries [i] (two positions never share a message); the whole
    call then fails with an invalid-argument error, which is this very one
    as soon as the tuples before [i] are well formed.  A tuple of two or
    three elements passes the length tests. *)
Theorem tuple_arity_outside_2_3 `{rt : Runtime} (df : loc) (by_ : value)
  (h : Heap) (args : list value) (i : nat) (xs : list value) :
  args !! i = Some (VTuple xs) ->
  (length xs < 2 \/ 3 < length xs ->
     let msg := fun j => if length xs <? 2 then arity_low_msg j
                         else arity_high_msg j in
     normalise_arg i (VTuple xs) = Err (ValueError (msg i))
     /\ (exists e, summarise df args by_ h = (Err e, h)
                   /\ is_InvalidArgument e = true)
     /\ (forall aggs, normalise (take i args) = OK aggs ->
           summarise df args by_ h = (Err (ValueError (msg i)), h))
     /\ (forall j, msg j = msg i -> j = i))
  /\ (2 <= length xs <= 3 -> check_arity i xs = OK tt).
Proof.
  intros Hi. split; [|now intros H; apply check_arity_pass].
  intros Hbad msg.
  assert (Hn : normalise_arg i (VTuple xs) = Err (ValueError (msg i))).
  { unfold normalise_arg, msg. simpl. unfold check_arity.
    destruct (Nat.ltb_spec (length xs) 2); [reflexivity|].
    destruct (Nat.ltb_spec 3 (length xs)); [reflexivity|lia]. }
  destruct (normalise_bad_arg _ _ _ _ Hi Hn) as [[e' He'] Hfirst].
  split; [exact Hn|]. split; [|split].
  - exists e'. split; [now apply summarise_normalise_Err|].
    exact (normalise_from_Err_invalid _ _ _ He').
  - intros aggs Ha. apply summarise_normalise_Err. eauto.
  - intros j. unfold msg. destruct (length xs <? 2).
    + apply arity_low_msg_inj.
    + apply arity_high_msg_inj.
Qed.

(** ** C3: what the normaliser checks about [func] *)

(** C3, as amended.  The normaliser looks at [func] itself and never at
    the elements of a list: any list is accepted unchanged as the function
    list, a single string or callable is wrapped into a one-element list,
    and a value that is neither a string, a callable nor a list is rejected
    with a check failure whose text carries the position. *)
Theorem normaliser_checks_func_not_its_elements (num : nat) (c f : value) :
  (forall fs, f = VList fs ->
     normalise_func num f = OK (VList fs)
     /\ normalise_arg num (VTuple [c; f]) = OK (_tupled_kw c (VList fs) VNone))
  /\ (is_str f || callable f = true ->
        normalise_func num f = OK (VList [f]))
  /\ (is_str f || callable f = false -> isinstance f Tlist = false ->
        normalise_func num f = Err (CheckFailed (func_varname num))
        /\ normalise_arg num (VTuple [c; f])
           = Err (CheckFailed (func_varname num)))
  /\ (forall j, func_varname j = func_varname num -> j = num).
Proof.
  split; [|split; [|split]].
  - intros fs ->. split; reflexivity.
  - intros H. unfold normalise_func. rewrite H. reflexivity.
  - intros H1 H2.
    assert (Hf : normalise_func num f = Err (CheckFailed (func_varname num))).
    { unfold normalise_func. rewrite H1. unfold check. simpl.
      apply orb_false_iff in H1 as [Hs Hc].
      destruct f; simpl in *; try discriminate; reflexivity. }
    split; [exact Hf|].
    unfold normalise_arg. simpl. now rewrite Hf.
  - intros j. apply func_varname_inj.
Qed.

(** ** The request loop *)

Section Executor.

Context `{rt : Runtime}.

Lemma normalise_arg_OK_inv (num : nat) (c f : value) (rest : list value) ag :
  normalise_arg num (VTuple (c :: f :: rest)) = OK ag ->
  col ag = c /\ normalise_func num f = OK (func ag)
  /\ name ag = nth 0 rest VNone /\ length rest <= 1.
Proof.
  unfold normalise_arg. simpl.
  destruct (check_arity num (c :: f :: rest)) as [[]|] eqn:Ea; simpl;
    [|discriminate].
  apply check_arity_pass in Ea. simpl in Ea.
  destruct rest as [|n [|? ?]]; simpl in Ea; try lia; simpl.
  - destruct (normalise_func num f) as [fs|]; simpl; [|discriminate].
    intros E. injection E as <-. simpl. repeat split; auto.
  - destruct (normalise_func num f) as [fs|]; simpl; [|discriminate].
    destruct (normalise_name num n) as [[]|]; simpl; [|discriminate].
    intros E. injection E as <-. simpl. repeat split; auto.
Qed.

Lemma contains_describe_In (fs : list value) :
  In (VStr "describe") fs ->
  contains_describe fs = OK true
  \/ contains_describe fs = Err (ValueError ambiguous_msg).
Proof.
  induction fs as [|f fs IH]; intros Hin; [contradiction|].
  destruct Hin as [->|Hin]; [now left|].
  destruct f; simpl; auto.
  destruct (String.eqb s "describe"); auto.
Qed.

Lemma contains_describe_tables_apart (fs : list value) :
  Forall (fun f => is_frame f = false) fs ->
  contains_describe fs = OK (existsb (fun f => eq_str f "describe") fs).
Proof.
  induction 1 as [|f fs Hf _ IH]; [reflexivity|].
  destruct f; simpl in *; try discriminate; try exact IH.
  destruct (String.eqb s "describe"); [reflexivity|exact IH].
Qed.

(** A request with ["describe"] among several functions never gets past
    the check that follows the resolution of its columns. *)
Lemma run_request_conflict (ag : Request) (fs : list value) :
  func ag = VList fs -> In (VStr "describe") fs -> 1 < length fs ->
  exists m,
    (forall df val acc h,
       run_request df val acc ag h
       = match get_index_labels (col ag) df h with
         | (OK _, h1) => (Err (ValueError m), h1)
         | (Err e, h1) => (Err e, h1)
         end)
    /\ (Forall (fun f => is_frame f = false) fs -> m = describe_msg).
Proof.
  intros Hf Hin Hlen. apply Nat.ltb_lt in Hlen.
  destruct (contains_describe_In fs Hin) as [Hc|Hc].
  - exists describe_msg. split; [|auto].
    intros df val acc h. unfold run_request, bind, lift, describe_conflict.
    destruct (get_index_labels (col ag) df h) as [[sel|e] h1]; [|reflexivity].
    rewrite Hf. cbn [items]. rewrite Hc. simpl. now rewrite Hlen.
  - exists ambiguous_msg. split.
    + intros df val acc h. unfold run_request, bind, lift, describe_conflict.
      destruct (get_index_labels (col ag) df h) as [[sel|e] h1];
        [|reflexivity].
      rewrite Hf. cbn [items]. now rewrite Hc.
    + intros Hno. rewrite (contains_describe_tables_apart fs Hno) in Hc.
      discriminate.
Qed.

Lemma foldM_fails_at {A B} (f : B -> A -> M B) (xs : list A) (i : nat) (x : A) :
  xs !! i = Some x ->
  (forall acc h, exists e h', f acc x h = (Err e, h')) ->
  forall acc h, exists e h', foldM f xs acc h = (Err e, h').
Proof.
  intros Hi Hx. revert i Hi.
  induction xs as [|y ys IH]; intros i Hi acc h; [discriminate|].
  simpl. unfold bind.
  destruct i as [|i]; simpl in Hi.
  - injection Hi as ->. destruct (Hx acc h) as (e & h' & ->). eauto.
  - destruct (f acc y h) as [[acc'|e] h1]; [|eauto].
    eapply IH; eauto.
Qed.

Lemma foldM_split {A B} (f : B -> A -> M B) (xs : list A) (i : nat) (x : A)
  acc h acc1 h1 :
  xs !! i = Some x ->
  foldM f (take i xs) acc h = (OK acc1, h1) ->
  foldM f xs acc h
  = (let* acc2 := f acc1 x in foldM f (drop (S i) xs) acc2) h1.
Proof.
  intros Hi E.
  rewrite <- (take_drop i xs) at 1.
  rewrite (drop_S _ _ _ Hi), foldM_app.
  unfold bind at 1. rewrite E. reflexivity.
Qed.

End Executor.

(** ** C6: [describe] next to other functions *)

(** C6, as amended.  A request whose function list holds ["describe"]
    together with another function makes the call fail, whatever else
    happens, and no result is returned.  As soon as the batch, the
    grouping, the requests before it and its own column selector are fine,
    the failure is a [ValueError], an invalid-argument error: the one
    asking for [describe] alone, unless a dataframe object sits in the
    function list.  A failure of the normaliser, of the grouping, of the
    first request that fails or of the request's own column selector is
    reported instead. *)
Theorem describe_with_other_functions `{rt : Runtime} (df : loc)
  (by_ : value) (h : Heap) (args : list value) (i : nat) (c : value)
  (fs rest : list value) :
  args !! i = Some (VTuple (c :: VList fs :: rest)) ->
  In (VStr "describe") fs ->
  1 < length fs ->
  (exists e, (summarise df args by_ h).1 = Err e)
  /\ (forall aggs grouping h1 aggs_ h2 sel h3,
        normalise args = OK aggs ->
        resolve_by df by_ h = (OK grouping, h1) ->
        run_requests df grouping.1 (take i aggs) [] h1 = (OK aggs_, h2) ->
        get_index_labels c df h2 = (OK sel, h3) ->
        exists m,
          summarise df args by_ h = (Err (ValueError m), h3)
          /\ is_InvalidArgument (ValueError m) = true
          /\ (Forall (fun f => is_frame f = false) fs -> m = describe_msg))
  /\ (forall e h1, normalise args = Err e \/
                   (exists aggs, normalise args = OK aggs
                                 /\ resolve_by df by_ h = (Err e, h1)) ->
        (summarise df args by_ h).1 = Err e)
  /\ (forall aggs grouping h1 aggs_ h2 e h3,
        normalise args = OK aggs ->
        resolve_by df by_ h = (OK grouping, h1) ->
        run_requests df grouping.1 (take i aggs) [] h1 = (OK aggs_, h2) ->
        get_index_labels c df h2 = (Err e, h3) ->
        summarise df args by_ h = (Err e, h3))
  /\ (forall aggs grouping h1 j ag aggs_ h2 e h3,
        normalise args = OK aggs ->
        resolve_by df by_ h = (OK grouping, h1) ->
        aggs !! j = Some ag ->
        run_requests df grouping.1 (take j aggs) [] h1 = (OK aggs_, h2) ->
        run_request df grouping.1 aggs_ ag h2 = (Err e, h3) ->
        summarise df args by_ h = (Err e, h3)).
Proof.
  intros Hi Hin Hlen.
  assert (Hne : args <> []) by (intros ->; discriminate).
  assert (Hag : forall aggs, normalise args = OK aggs ->
            exists ag, aggs !! i = Some ag /\ col ag = c
                       /\ func ag = VList fs).
  { intros aggs E.
    destruct (normalise_from_lookup _ _ _ _ _ Hi E) as (ag & Ha & Hl & _).
    simpl in Ha. apply normalise_arg_OK_inv in Ha as (Hc & Hf & _).
    exists ag. repeat split; auto.
    simpl in Hf. now injection Hf as <-. }
  split; [|split; [|split; [|split]]].
  - destruct (normalise args) as [aggs|e] eqn:E.
    2:{ exists e. now rewrite (summarise_normalise_Err _ _ _ _ _ E). }
    destruct (Hag aggs eq_refl) as (ag & Hl & Hc & Hf).
    destruct (run_request_conflict ag fs Hf Hin Hlen) as (m & Hm & _).
    rewrite (summarise_unfold _ _ _ _ _ Hne E). unfold bind at 1.
    destruct (resolve_by df by_ h) as [[grouping|e] h1]; [|now exists e].
    unfold bind, run_requests.
    destruct (foldM_fails_at (run_request df grouping.1) aggs i ag Hl)
      with (acc := @nil value) (h := h1) as (e & h' & ->).
    + intros acc h0. rewrite Hm.
      destruct (get_index_labels (col ag) df h0) as [[?|e] h']; eauto.
    + now exists e.
  - intros aggs grouping h1 aggs_ h2 sel h3 E Hg Hrun Hsel.
    destruct (Hag aggs E) as (ag & Hl & Hc & Hf).
    destruct (run_request_conflict ag fs Hf Hin Hlen) as (m & Hm & Hmsg).
    exists m. split; [|split; [reflexivity|exact Hmsg]].
    rewrite (summarise_unfold _ _ _ _ _ Hne E). unfold bind at 1.
    rewrite Hg. unfold bind at 1. unfold run_requests.
    rewrite (foldM_split _ _ _ _ _ _ _ _ Hl Hrun).
    unfold bind at 1. rewrite Hm.
    rewrite Hc, Hsel. reflexivity.
  - intros e h1 [E|(aggs & E & Hg)].
    + now rewrite (summarise_normalise_Err _ _ _ _ _ E).
    + rewrite (summarise_unfold _ _ _ _ _ Hne E). unfold bind.
      now rewrite Hg.
  - intros aggs grouping h1 aggs_ h2 e h3 E Hg Hrun Hsel.
    destruct (Hag aggs E) as (ag & Hl & Hc & Hf).
    destruct (run_request_conflict ag fs Hf Hin Hlen) as (m & Hm & _).
    rewrite (summarise_unfold _ _ _ _ _ Hne E). unfold bind at 1.
    rewrite Hg. unfold bind at 1. unfold run_requests.
    rewrite (foldM_split _ _ _ _ _ _ _ _ Hl Hrun).
    unfold bind at 1. rewrite Hm.
    rewrite Hc, Hsel. reflexivity.
  - intros aggs grouping h1 j ag aggs_ h2 e h3 E Hg Hj Hrun Hreq.
    rewrite (summarise_unfold _ _ _ _ _ Hne E).
    rewrite (bind_OK _ _ _ _ _ Hg). unfold bind at 1. unfold run_requests.
    rewrite (foldM_split _ _ _ _ _ _ _ _ Hj Hrun).
    unfold bind at 1. now rewrite Hreq.
Qed.

(** ** C2: a symbolic function the primitive does not know *)

(** C2 (what the code does).  For a single request on one column with a
    symbolic function that the aggregation primitive rejects with an
    [AttributeError], the error is caught, no fallback applies because the
    function is not a callable, nothing is raised again, and the call
    returns the resolved column label as its result. *)
Theorem unsupported_symbol_is_swallowed `{rt : Runtime} (df : loc)
  (h h1 h2 : Heap) (c lbl : value) (f : string) (e : Error) :
  f <> "describe" ->
  get_index_labels c df h = (OK (Scalar lbl), h1) ->
  agg (Whole df) [lbl] (VList [VStr f]) h1 = (Err e, h2) ->
  is_UnsupportedFunction e = true ->
  summarise df [VTuple [c; VStr f]] VNone h = (OK lbl, h2).
Proof.
  intros Hf Hsel Hagg He. destruct e; try discriminate.
  apply String.eqb_neq in Hf.
  pose (ag := _tupled_kw c (VList [VStr f]) VNone).
  assert (Hreq : run_request df (Whole df) [] ag h = (OK [lbl], h2)).
  { unfold run_request. rewrite (bind_OK _ _ _ _ _ Hsel).
    assert (Hc : describe_conflict ag = OK false).
    { unfold describe_conflict. simpl. now rewrite Hf. }
    unfold lift at 1. rewrite Hc. unfold bind at 1.
    assert (Ha : aggregate (Whole df) (tolist (Scalar lbl)) ag h1
                 = (OK (VList [lbl]), h2)).
    { unfold aggregate, bind, lift. simpl. rewrite Hf.
      unfold try_except_AttributeError. rewrite Hagg. reflexivity. }
    rewrite (bind_OK _ _ _ _ _ Ha). reflexivity. }
  rewrite (summarise_unfold _ _ _ _ [ag]); [|discriminate|reflexivity].
  unfold bind at 1. rewrite (resolve_by_falsy df VNone h eq_refl).
  unfold run_requests. cbn [foldM fst snd].
  rewrite (bind_OK _ _ _ _ _ (bind_OK _ _ _ _ _ Hreq)).
  reflexivity.
Qed.

(** ** C5: renaming the sole column *)

Lemma map_nth_seq {A} (d : A) (xs : list A) :
  map (fun i => nth i xs d) (seq 0 (length xs)) = xs.
Proof.
  induction xs as [|x xs IH]; [reflexivity|].
  simpl. f_equal. rewrite <- seq_shift, map_map. exact IH.
Qed.







(** ** C4 and C1: the assembler *)

Section Assembler.

Context `{rt : Runtime}.

Lemma columns_of_table (h : Heap) (l : loc) (f : DataFrame) :
  h !! l = Some f -> columns_of (VFrame l) h = (OK (columns f), h).
Proof. intros Hl. unfold columns_of, bind, deref, ret. now rewrite Hl. Qed.

Lemma depths_total (h : Heap) (frames : list value) :
  Forall (is_table h) frames ->
  exists ds,
    forM frames (fun frame => let* cols := columns_of frame in
                              ret (nlevels cols)) h = (OK ds, h)
    /\ header_depths h frames = map Some ds.
Proof.
  induction 1 as [|v vs (l & f & -> & Hl) _ (ds & IH & Hd)]; cbn [forM].
  - now exists [].
  - exists (nlevels (columns f) :: ds). split.
    + rewrite (bind_OK _ _ h (nlevels (columns f)) h).
      * now rewrite (bind_OK _ _ _ _ _ IH).
      * now rewrite (bind_OK _ _ _ _ _ (columns_of_table _ _ _ Hl)).
    + simpl. now rewrite Hl, Hd.
Qed.

(** What the padding loop does to one table: its header gets
    [k - depth] levels of empty labels when it is shallower than [k]. *)
Lemma pad_table (k : nat) (h : Heap) (l : loc) (f : DataFrame) :
  h !! l = Some f ->
  pad k (VFrame l) h
  = (OK tt, if nlevels (columns f) <? k
            then <[l := padded (k - nlevels (columns f)) f]> h
            else h).
Proof.
  intros Hl. unfold pad.
  rewrite (bind_OK _ _ _ _ _ (columns_of_table _ _ _ Hl)).
  destruct (nlevels (columns f) <? k); [|reflexivity].
  unfold assign_columns, set_columns. rewrite Hl.
  unfold padded, get_level_values, nlevels.
  now rewrite (map_nth_seq [] (levels (columns f))).
Qed.

Lemma pad_total (k : nat) (h : Heap) (v : value) :
  is_table h v ->
  exists h', pad k v h = (OK tt, h')
             /\ forall v', is_table h v' -> is_table h' v'.
Proof.
  intros (l & f & -> & Hl). unfold pad, bind.
  rewrite (columns_of_table _ _ _ Hl).
  destruct (nlevels (columns f) <? k).
  - simpl. unfold set_columns. rewrite Hl. eexists. split; [reflexivity|].
    intros v' (l' & f' & -> & Hl').
    destruct (decide (l = l')) as [<-|Hne].
    + do 2 eexists. split; [reflexivity|]. apply lookup_insert_eq.
    + exists l', f'. split; [reflexivity|]. now rewrite lookup_insert_ne.
  - exists h. now split.
Qed.

Lemma padding_total (k : nat) (frames : list value) (h : Heap) :
  Forall (is_table h) frames ->
  exists h', mapM_ (pad k) frames h = (OK tt, h').
Proof.
  revert h. induction frames as [|v vs IH]; intros h Hall; simpl.
  - now exists h.
  - inversion Hall as [|? ? Hv Hvs]; subst.
    destruct (pad_total k h v Hv) as (h1 & Hp & Hkeep).
    unfold bind. rewrite Hp. apply IH.
    eapply Forall_impl; [exact Hvs|exact Hkeep].
Qed.

Lemma reconcile_total (frames : list value) (h : Heap) :
  Forall (is_table h) frames ->
  exists h', reconcile frames h = (OK tt, h').
Proof.
  intros Hall. unfold reconcile.
  destruct (depths_total h frames Hall) as (ds & Hd & _).
  rewrite (bind_OK _ _ _ _ _ Hd).
  destruct (1 <? size _).
  - now apply padding_total.
  - now exists h.
Qed.

Lemma size_constant (d : nat) (ds : list nat) :
  Forall (fun x => x = d) ds -> size (list_to_set ds : gset nat) <= 1.
Proof.
  intros H.
  assert (Hsub : (list_to_set ds : gset nat) ⊆ {[d]}).
  { intros x Hx. apply elem_of_list_to_set in Hx.
    rewrite Forall_forall in H. apply H in Hx. set_solver. }
  apply subseteq_size in Hsub. now rewrite size_singleton in Hsub.
Qed.

Lemma size_two (d1 d2 : nat) :
  d1 <> d2 -> size (list_to_set [d1; d2] : gset nat) = 2.
Proof.
  intros Hne. rewrite !list_to_set_cons, list_to_set_nil, union_empty_r_L.
  rewrite size_union by set_solver. now rewrite !size_singleton.
Qed.

(** Tables that all have the same header depth are left as they are. *)
Lemma reconcile_same_depth (frames : list value) (h : Heap) (d : nat) :
  Forall (is_table h) frames ->
  Forall (fun o => o = Some d) (header_depths h frames) ->
  reconcile frames h = (OK tt, h).
Proof.
  intros Hall Hsame. unfold reconcile.
  destruct (depths_total h frames Hall) as (ds & Hd & Hh).
  rewrite (bind_OK _ _ _ _ _ Hd).
  assert (Hds : Forall (fun x => x = d) ds).
  { rewrite Hh in Hsame. apply Forall_map in Hsame.
    eapply Forall_impl; [exact Hsame|]. simpl. now intros x [= ->]. }
  pose proof (size_constant d ds Hds) as Hsz.
  destruct (Nat.ltb_spec 1 (size (list_to_set ds : gset nat)));
    [lia|reflexivity].
Qed.

(** Two tables of different depths: each one ends at the larger of its
    own depth and 2, the number of distinct depths; the headers agree
    afterwards only if the deeper one has depth 2. *)
Lemma reconcile_two_tables (h : Heap) (l1 l2 : loc) (f1 f2 : DataFrame) :
  l1 <> l2 ->
  h !! l1 = Some f1 ->
  h !! l2 = Some f2 ->
  nlevels (columns f1) <> nlevels (columns f2) ->
  exists h',
    reconcile [VFrame l1; VFrame l2] h = (OK tt, h')
    /\ header_depths h' [VFrame l1; VFrame l2]
       = [Some (Nat.max (nlevels (columns f1)) 2);
          Some (Nat.max (nlevels (columns f2)) 2)].
Proof.
  intros Hne H1 H2 Hd. unfold reconcile.
  assert (Hall : Forall (is_table h) [VFrame l1; VFrame l2]).
  { repeat constructor; eexists _, _; eauto. }
  destruct (depths_total h _ Hall) as (ds & Hds & Hh).
  simpl in Hh. rewrite H1, H2 in Hh. simpl in Hh.
  destruct ds as [|d1 [|d2 [|? ?]]]; try discriminate.
  injection Hh as <- <-.
  rewrite (bind_OK _ _ _ _ _ Hds), (size_two _ _ Hd).
  change (1 <? 2) with true. cbv iota. cbn [mapM_].
  rewrite (bind_OK _ _ _ _ _ (pad_table 2 h l1 f1 H1)).
  set (h1 := if nlevels (columns f1) <? 2
             then <[l1 := padded (2 - nlevels (columns f1)) f1]> h else h).
  assert (H2' : h1 !! l2 = Some f2).
  { unfold h1. destruct (_ <? 2); [|exact H2]. now rewrite lookup_insert_ne. }
  rewrite (bind_OK _ _ _ _ _ (pad_table 2 h1 l2 f2 H2')).
  eexists. split; [reflexivity|].
  unfold header_depths, h1. simpl.
  destruct (Nat.ltb_spec (nlevels (columns f1)) 2) as [Ha|Ha],
           (Nat.ltb_spec (nlevels (columns f2)) 2) as [Hb|Hb];
    repeat first [rewrite lookup_insert_eq
                 |rewrite lookup_insert_ne by congruence];
    rewrite ?H1, ?H2; simpl; unfold nlevels in *; simpl;
    rewrite ?length_app, ?length_replicate;
    (f_equal; [f_equal; lia|f_equal; f_equal; lia]).
Qed.

Lemma same_data_refl (h : Heap) : same_data h h.
Proof. intros l f Hl. now exists f. Qed.

Lemma same_data_trans (h1 h2 h3 : Heap) :
  same_data h1 h2 -> same_data h2 h3 -> same_data h1 h3.
Proof.
  intros H12 H23 l f Hl.
  destruct (H12 l f Hl) as (f' & Hl' & Hi & Hc).
  destruct (H23 l f' Hl') as (f'' & Hl'' & Hi' & Hc').
  exists f''. repeat split; congruence.
Qed.

Lemma steady_ret {A} (a : A) : steady (ret a).
Proof. intros h. apply same_data_refl. Qed.

Lemma steady_raise {A} (e : Error) : steady (@raise A e).
Proof. intros h. apply same_data_refl. Qed.

Lemma steady_bind {A B} (m : M A) (k : A -> M B) :
  steady m -> (forall a, steady (k a)) -> steady (bind m k).
Proof.
  intros Hm Hk h. specialize (Hm h). unfold bind.
  destruct (m h) as [[a|e] h1]; simpl in *; [|exact Hm].
  eapply same_data_trans; [exact Hm|apply Hk].
Qed.

Lemma steady_set_columns (l : loc) (ix : Index) : steady (set_columns l ix).
Proof.
  intros h. unfold set_columns.
  destruct (h !! l) as [f|] eqn:Hl; simpl; [|apply same_data_refl].
  intros l' f' Hl'. destruct (decide (l = l')) as [<-|Hne].
  - rewrite lookup_insert_eq. exists (with_columns ix f).
    assert (f' = f) as -> by congruence. now repeat split.
  - rewrite lookup_insert_ne by exact Hne. now exists f'.
Qed.

Lemma steady_columns_of (frame : value) : steady (columns_of frame).
Proof.
  destruct frame; try apply steady_raise.
  intros h. simpl. unfold bind, deref.
  destruct (h !! l); apply same_data_refl.
Qed.

Lemma steady_pad (k : nat) (frame : value) : steady (pad k frame).
Proof.
  unfold pad. apply steady_bind; [apply steady_columns_of|]. intros cols.
  destruct (_ <? k); [|apply steady_ret].
  destruct frame; try apply steady_raise. apply steady_set_columns.
Qed.

Lemma steady_forM {A B} (xs : list A) (f : A -> M B) :
  (forall x, steady (f x)) -> steady (forM xs f).
Proof.
  intros Hf. induction xs as [|x xs IH]; simpl; [apply steady_ret|].
  apply steady_bind; [apply Hf|]. intros y.
  apply steady_bind; [apply IH|]. intros ys. apply steady_ret.
Qed.

Lemma steady_mapM_ {A} (xs : list A) (f : A -> M unit) :
  (forall x, steady (f x)) -> steady (mapM_ f xs).
Proof.
  intros Hf. induction xs as [|x xs IH]; simpl; [apply steady_ret|].
  apply steady_bind; [apply Hf|]. intros _. apply IH.
Qed.

(** Reconciliation touches headers only. *)
Lemma steady_reconcile (frames : list value) : steady (reconcile frames).
Proof.
  unfold reconcile. apply steady_bind.
  - apply steady_forM. intros frame.
    apply steady_bind; [apply steady_columns_of|]. intros cols.
    apply steady_ret.
  - intros depths. destruct (1 <? size _); [|apply steady_ret].
    apply steady_mapM_. intros frame. apply steady_pad.
Qed.

Lemma resolve_by_flag (df : loc) (by_ : value) (h h1 : Heap) grouping :
  resolve_by df by_ h = (OK grouping, h1) ->
  (grouping.2 = true <-> exists g, grouping.1 = Grouped g)
  /\ (grouping.2 = false <-> grouping.1 = Whole df).
Proof.
  unfold resolve_by, bind, lift.
  destruct (truthy by_) as [[|]|]; try discriminate.
  - assert (Hg : forall (m : M GroupBy),
              (let (r, h') := m h in
               match r with
               | OK a => ret (Grouped a, true) h'
               | Err e => (Err e, h')
               end) = (OK grouping, h1) ->
              exists g, grouping = (Grouped g, true)).
    { intros m. destruct (m h) as [[g|] h']; [|discriminate].
      unfold ret. intros E. injection E as <- _. now exists g. }
    intros E.
    assert (exists g, grouping = (Grouped g, true)) as [g ->].
    { destruct by_; try (destruct (get_index_labels _ df h) as [[sel|] h'];
        [|discriminate]); eapply Hg; exact E. }
    simpl. split; split; try discriminate; eauto.
  - unfold ret. intros E. injection E as <- _. simpl.
    split; split; try discriminate; auto.
    intros [g Hg]. discriminate.
Qed.

End Assembler.

(** C4.  When the requests produce more than one partial table, the result
    of the call is [pd.concat] applied to all of them, in order: along
    [axis=1] (side by side) when grouping is active, that is when the
    aggregations ran against a grouping handle, and along [axis=0]
    (stacked) when they ran against the dataframe itself.  The tables are
    concatenated as header reconciliation leaves them: it succeeds on
    tables, keeps every index and every cell, and changes nothing at all
    when the headers have one common depth. *)
Theorem merge_axis_follows_grouping `{rt : Runtime} (df : loc)
  (args : list value) (by_ : value) (h h1 h2 : Heap) aggs grouping aggs_ :
  normalise args = OK aggs ->
  resolve_by df by_ h = (OK grouping, h1) ->
  run_requests df grouping.1 aggs [] h1 = (OK aggs_, h2) ->
  1 < length aggs_ ->
  Forall (is_table h2) aggs_ ->
  ((exists g, grouping.1 = Grouped g) /\ grouping.2 = true
   \/ grouping.1 = Whole df /\ grouping.2 = false)
  /\ exists h3,
       reconcile aggs_ h2 = (OK tt, h3)
       /\ same_data h2 h3
       /\ (forall d, Forall (fun o => o = Some d) (header_depths h2 aggs_) ->
             h3 = h2)
       /\ summarise df args by_ h
          = pd_concat aggs_ (if grouping.2 then 1 else 0) h3.
Proof.
  intros E Hg Hrun Hlen Hall.
  destruct (resolve_by_flag _ _ _ _ _ Hg) as [Ht Hf].
  split.
  { destruct grouping.2; [left|right]; split; auto.
    - now apply Ht.
    - now apply Hf. }
  destruct (reconcile_total aggs_ h2 Hall) as [h3 Hr].
  exists h3. split; [exact Hr|].
  split. { pose proof (steady_reconcile aggs_ h2) as Hst. now rewrite Hr in Hst. }
  split. { intros d Hd. pose proof (reconcile_same_depth _ _ _ Hall Hd).
           congruence. }
  assert (Hne : args <> []).
  { intros ->. injection E as <-. simpl in Hrun. unfold ret in Hrun.
    injection Hrun as <- _. simpl in Hlen. lia. }
  rewrite (summarise_unfold _ _ _ _ _ Hne E).
  unfold bind at 1. rewrite Hg. unfold bind at 1. rewrite Hrun.
  unfold assemble. apply Nat.ltb_lt in Hlen. rewrite Hlen.
  unfold bind. rewrite Hr. reflexivity.
Qed.

(** C10.  When [by] is given but falsy (an empty list, an empty dict, ...)
    the function takes the ungrouped path, exactly as with [by=None]: the
    grouping step builds no handle and leaves the store alone, the
    aggregations run against the dataframe itself, and several partial
    tables are merged by [pd.concat] along [axis=0] (stacked), after a
    header reconciliation that keeps every index and every cell. *)
Theorem falsy_by_is_ungrouped `{rt : Runtime} (df : loc) (args : list value)
  (by_ : value) (h : Heap) :
  falsy by_ ->
  resolve_by df by_ h = (OK (Whole df, false), h)
  /\ summarise df args by_ h = summarise df args VNone h
  /\ (forall aggs, args <> [] -> normalise args = OK aggs ->
        summarise df args by_ h
        = (let* aggs_ := run_requests df (Whole df) aggs [] in
           assemble false aggs_) h)
  /\ (forall aggs aggs_ h2,
        normalise args = OK aggs ->
        run_requests df (Whole df) aggs [] h = (OK aggs_, h2) ->
        1 < length aggs_ ->
        Forall (is_table h2) aggs_ ->
        exists h3,
          reconcile aggs_ h2 = (OK tt, h3)
          /\ same_data h2 h3
          /\ summarise df args by_ h = pd_concat aggs_ 0 h3).
Proof.
  intros F.
  split; [now apply resolve_by_falsy|].
  assert (Hs : forall aggs, args <> [] -> normalise args = OK aggs ->
            summarise df args by_ h
            = (let* aggs_ := run_requests df (Whole df) aggs [] in
               assemble false aggs_) h).
  { intros aggs Hne E. rewrite (summarise_unfold _ _ _ _ _ Hne E).
    unfold bind at 1. now rewrite (resolve_by_falsy _ _ _ F). }
  split; [|split; [exact Hs|]].
  - destruct (normalise args) as [aggs|e] eqn:E.
    + destruct args as [|a args]; [reflexivity|].
      rewrite (Hs aggs) by congruence.
      rewrite (summarise_unfold _ _ VNone _ aggs) by congruence.
      unfold bind at 2. now rewrite (resolve_by_falsy df VNone h).
    + now rewrite !(summarise_normalise_Err _ _ _ _ _ E).
  - intros aggs aggs_ h2 E Hrun Hlen Hall.
    destruct (reconcile_total aggs_ h2 Hall) as [h3 Hr].
    exists h3. split; [exact Hr|]. split.
    { pose proof (steady_reconcile aggs_ h2) as Hst. now rewrite Hr in Hst. }
    assert (Hne : args <> []).
    { intros ->. injection E as <-. simpl in Hrun. unfold ret in Hrun.
      injection Hrun as <- _. simpl in Hlen. lia. }
    rewrite (Hs aggs Hne E). rewrite (bind_OK _ _ _ _ _ Hrun).
    unfold assemble. apply Nat.ltb_lt in Hlen. rewrite Hlen.
    now rewrite (bind_OK _ _ _ _ _ Hr).
Qed.

(** ** The padding loop *)

Lemma padded_to_levels (k : nat) (f : DataFrame) :
  levels (columns (padded_to k f))
  = levels (columns f)
    ++ replicate (k - nlevels (columns f))
         (replicate (Index_size (columns f)) (VStr ""))
  /\ nlevels (columns (padded_to k f)) = Nat.max (nlevels (columns f)) k
  /\ index (padded_to k f) = index f
  /\ cells (padded_to k f) = cells f.
Proof.
  unfold padded_to.
  destruct (Nat.ltb_spec (nlevels (columns f)) k) as [Hlt|Hge].
  - repeat split; try reflexivity.
    unfold padded, nlevels in *. simpl.
    rewrite length_app, length_replicate. lia.
  - replace (k - nlevels (columns f)) with 0 by lia. simpl.
    rewrite app_nil_r. repeat split; try reflexivity. lia.
Qed.

Lemma padded_to_idempotent (k : nat) (f : DataFrame) :
  padded_to k (padded_to k f) = padded_to k f.
Proof.
  destruct (padded_to_levels k f) as (_ & Hd & _).
  unfold padded_to at 1.
  destruct (Nat.ltb_spec (nlevels (columns (padded_to k f))) k); [lia|].
  reflexivity.
Qed.

Lemma pad_table_insert (k : nat) (h : Heap) (l : loc) (f : DataFrame) :
  h !! l = Some f ->
  pad k (VFrame l) h = (OK tt, <[l := padded_to k f]> h).
Proof.
  intros Hl. rewrite (pad_table k h l f Hl). unfold padded_to.
  destruct (_ <? k); [reflexivity|]. now rewrite insert_id.
Qed.

Lemma padding_loop (k : nat) (frames : list value) (h : Heap) :
  Forall (is_table h) frames ->
  exists h',
    mapM_ (pad k) frames h = (OK tt, h')
    /\ forall l,
         h' !! l = (fun f => if existsb (is_ref l) frames
                             then padded_to k f else f) <$> h !! l.
Proof.
  revert h. induction frames as [|v vs IH]; intros h Hall.
  - exists h. split; [reflexivity|]. intros l. simpl.
    now destruct (h !! l).
  - inversion Hall as [|? ? (l0 & f0 & -> & Hl0) Hvs]; subst.
    pose proof (pad_table_insert k h l0 f0 Hl0) as Hp.
    assert (Hvs' : Forall (is_table (<[l0 := padded_to k f0]> h)) vs).
    { eapply Forall_impl; [exact Hvs|].
      intros v (l & f & -> & Hl).
      destruct (decide (l0 = l)) as [<-|Hne].
      - do 2 eexists. split; [reflexivity|]. apply lookup_insert_eq.
      - exists l, f. split; [reflexivity|]. now rewrite lookup_insert_ne. }
    destruct (IH _ Hvs') as (h' & Hrun & Hlook).
    exists h'. split.
    + cbn [mapM_]. now rewrite (bind_OK _ _ _ _ _ Hp).
    + intros l. rewrite Hlook. cbn [existsb is_ref].
      destruct (Nat.eqb_spec l0 l) as [<-|Hne].
      * rewrite lookup_insert_eq, Hl0. simpl.
        destruct (existsb (is_ref l0) vs); [|reflexivity].
        now rewrite padded_to_idempotent.
      * rewrite lookup_insert_ne by exact Hne. reflexivity.
Qed.

Lemma omap_id_Some {A} (xs : list A) : omap id (map Some xs) = xs.
Proof. induction xs as [|x xs IH]; simpl; [reflexivity|]. f_equal. exact IH. Qed.

Lemma listed_table_is_ref (l : loc) (frames : list value) :
  In (VFrame l) frames -> existsb (is_ref l) frames = true.
Proof.
  intros Hin. apply existsb_exists. exists (VFrame l).
  split; [exact Hin|]. simpl. apply Nat.eqb_refl.
Qed.

Lemma listed_depth (h : Heap) (frames : list value) (ds : list nat)
  (l : loc) (f : DataFrame) :
  header_depths h frames = map Some ds ->
  In (VFrame l) frames -> h !! l = Some f ->
  In (nlevels (columns f)) ds.
Proof.
  intros Hh Hin Hl.
  assert (H : In (Some (nlevels (columns f))) (header_depths h frames)).
  { unfold header_depths. apply in_map_iff. exists (VFrame l).
    split; [now rewrite Hl|exact Hin]. }
  rewrite Hh in H. apply in_map_iff in H as (d & [= <-] & Hd). exact Hd.
Qed.

Lemma two_depths_counted (ds : list nat) (d1 d2 : nat) :
  In d1 ds -> In d2 ds -> d1 <> d2 ->
  2 <= size (list_to_set ds : gset nat).
Proof.
  intros H1 H2 Hne.
  assert (Hsub : ({[d1]} ∪ {[d2]} : gset nat) ⊆ list_to_set ds).
  { intros x Hx. apply elem_of_list_to_set, list_elem_of_In.
    apply elem_of_union in Hx as [Hx|Hx];
      apply elem_of_singleton in Hx; now subst. }
  apply subseteq_size in Hsub.
  rewrite size_union in Hsub by set_solver.
  now rewrite !size_singleton in Hsub.
Qed.

Lemma two_listed (aggs_ : list value) (a b : value) :
  In a aggs_ -> In b aggs_ -> a <> b -> 1 < length aggs_.
Proof.
  destruct aggs_ as [|x [|y ys]]; simpl.
  - intros [].
  - intros [<-|[]] [<-|[]] Hab. now destruct Hab.
  - lia.
Qed.

Lemma summarise_merges `{rt : Runtime} (df : loc) (args : list value)
  (by_ : value) (h h1 h2 h3 : Heap) aggs grouping aggs_ :
  normalise args = OK aggs ->
  resolve_by df by_ h = (OK grouping, h1) ->
  run_requests df grouping.1 aggs [] h1 = (OK aggs_, h2) ->
  1 < length aggs_ ->
  reconcile aggs_ h2 = (OK tt, h3) ->
  summarise df args by_ h = pd_concat aggs_ (merge_axis grouping.2) h3.
Proof.
  intros E Hg Hrun Hlen Hr.
  assert (Hne : args <> []).
  { intros ->. injection E as <-. simpl in Hrun. unfold ret in Hrun.
    injection Hrun as <- _. simpl in Hlen. lia. }
  rewrite (summarise_unfold _ _ _ _ _ Hne E).
  rewrite (bind_OK _ _ _ _ _ Hg), (bind_OK _ _ _ _ _ Hrun).
  unfold assemble. apply Nat.ltb_lt in Hlen. rewrite Hlen.
  now rewrite (bind_OK _ _ _ _ _ Hr).
Qed.

(** C1 (what the code does).  The padding loop measures every header
    against the number of distinct depths, not against the deepest header.
    So whenever the partial tables hold a table that is deeper than that
    number, a shallower table of the list is padded up to that number
    only: after reconciliation it is still shallower than the deepest
    table, which is left as it is, and the headers are not uniform.  A
    call whose requests leave these partial tables hands them to
    [pd.concat] in that state. *)
Theorem padding_stops_at_count_of_depths `{rt : Runtime} (h : Heap)
  (aggs_ : list value) (l1 l2 : loc) (f1 f2 : DataFrame) :
  Forall (is_table h) aggs_ ->
  In (VFrame l1) aggs_ ->
  In (VFrame l2) aggs_ ->
  h !! l1 = Some f1 ->
  h !! l2 = Some f2 ->
  nlevels (columns f1) < nlevels (columns f2) ->
  distinct_depths h aggs_ < nlevels (columns f2) ->
  exists h' f1',
    reconcile aggs_ h = (OK tt, h')
    /\ h' !! l1 = Some f1'
    /\ h' !! l2 = Some f2
    /\ 2 <= distinct_depths h aggs_
    /\ nlevels (columns f1')
       = Nat.max (nlevels (columns f1)) (distinct_depths h aggs_)
    /\ nlevels (columns f1') < nlevels (columns f2)
    /\ (forall df args by_ h0 aggs grouping h1,
          normalise args = OK aggs ->
          resolve_by df by_ h0 = (OK grouping, h1) ->
          run_requests df grouping.1 aggs [] h1 = (OK aggs_, h) ->
          summarise df args by_ h0
          = pd_concat aggs_ (merge_axis grouping.2) h').
Proof.
  intros Hall Hin1 Hin2 Hl1 Hl2 Hlt Hk.
  destruct (depths_total h aggs_ Hall) as (ds & Hds & Hh).
  assert (Ek : distinct_depths h aggs_ = size (list_to_set ds : gset nat)).
  { unfold distinct_depths. now rewrite Hh, omap_id_Some. }
  assert (H2 : 2 <= distinct_depths h aggs_).
  { rewrite Ek.
    apply (two_depths_counted ds (nlevels (columns f1)) (nlevels (columns f2)));
      [exact (listed_depth h aggs_ ds l1 f1 Hh Hin1 Hl1)
      |exact (listed_depth h aggs_ ds l2 f2 Hh Hin2 Hl2)|lia]. }
  destruct (padding_loop (distinct_depths h aggs_) aggs_ h Hall)
    as (h' & Hrun & Hlook).
  exists h', (padded_to (distinct_depths h aggs_) f1).
  destruct (padded_to_levels (distinct_depths h aggs_) f1) as (_ & Hd & _).
  assert (Hrec : reconcile aggs_ h = (OK tt, h')).
  { unfold reconcile. rewrite (bind_OK _ _ _ _ _ Hds), <- Ek.
    assert (Hb : (1 <? distinct_depths h aggs_) = true)
      by (apply Nat.ltb_lt; lia).
    now rewrite Hb. }
  split; [exact Hrec|].
  split.
  { now rewrite Hlook, Hl1, (listed_table_is_ref _ _ Hin1). }
  split.
  { rewrite Hlook, Hl2, (listed_table_is_ref _ _ Hin2). simpl.
    unfold padded_to.
    destruct (Nat.ltb_spec (nlevels (columns f2)) (distinct_depths h aggs_));
      [lia|reflexivity]. }
  split; [exact H2|]. split; [exact Hd|]. split; [lia|].
  intros df args by_ h0 aggs grouping h1 E Hg Hruns.
  assert (Hlen : 1 < length aggs_).
  { apply (two_listed aggs_ (VFrame l1) (VFrame l2) Hin1 Hin2).
    intros [= ->]. rewrite Hl1 in Hl2. injection Hl2 as ->. lia. }
  exact (summarise_merges df args by_ h0 h1 h h' aggs grouping aggs_
           E Hg Hruns Hlen Hrec).
Qed.

(** ** C9: a falsy name *)

Section FalsyName.

Context `{rt : Runtime}.

Lemma rename_falsy (ag : Request) (out : value) (h : Heap) :
  falsy (name ag) -> rename ag out h = (OK tt, h).
Proof. intros F. unfold rename, bind, lift. now rewrite F. Qed.

Lemma run_request_name_blind (df : loc) (val : view) (ag ag' : Request) :
  same_but_falsy_name ag ag' ->
  forall acc h, run_request df val acc ag h = run_request df val acc ag' h.
Proof.
  destruct ag as [c f n], ag' as [c' f' n'].
  intros (Hc & Hf & Hn) acc h. simpl in Hc, Hf, Hn. subst c' f'.
  destruct Hn as [->|[F F']]; [reflexivity|]. simpl in F, F'.
  unfold run_request. simpl col.
  change (describe_conflict (_tupled_kw c f n'))
    with (describe_conflict (_tupled_kw c f n)).
  unfold bind, lift.
  destruct (get_index_labels c df h) as [[sel|e] h1]; [|reflexivity].
  destruct (describe_conflict _) as [[|]|e]; try reflexivity.
  change (aggregate val (tolist sel) (_tupled_kw c f n'))
    with (aggregate val (tolist sel) (_tupled_kw c f n)).
  destruct (aggregate val (tolist sel) _ h1) as [[out|e] h2]; [|reflexivity].
  now rewrite !rename_falsy.
Qed.

Lemma run_requests_name_blind (df : loc) (val : view) (aggs aggs' : list Request) :
  Forall2 same_but_falsy_name aggs aggs' ->
  forall acc h, run_requests df val aggs acc h = run_requests df val aggs' acc h.
Proof.
  unfold run_requests.
  induction 1 as [|ag ag' aggs aggs' Hag _ IH]; intros acc h; simpl;
    [reflexivity|].
  unfold bind. rewrite (run_request_name_blind _ _ _ _ Hag).
  destruct (run_request df val acc ag' h) as [[acc'|e] h1]; [|reflexivity].
  apply IH.
Qed.

Lemma same_but_falsy_name_refl (aggs : list Request) :
  Forall2 same_but_falsy_name aggs aggs.
Proof.
  induction aggs; constructor; auto. repeat split; auto.
Qed.

Lemma normalise_name_falsy (num : nat) (n : value) :
  falsy n -> normalise_name num n = OK tt.
Proof. intros F. unfold normalise_name. now rewrite F. Qed.

Lemma normalise_from_name_blind (num i : nat) (args : list value)
  (c f n : value) :
  args !! i = Some (VTuple [c; f; n]) ->
  falsy n ->
  match normalise_from num args,
        normalise_from num (<[i := VTuple [c; f]]> args) with
  | OK aggs, OK aggs' => Forall2 same_but_falsy_name aggs aggs'
  | Err e, Err e' => e = e'
  | _, _ => False
  end.
Proof.
  intros Hi F. revert num i Hi.
  induction args as [|x xs IH]; intros num i Hi; [discriminate|].
  destruct i as [|i]; simpl in Hi.
  - injection Hi as ->. cbn [list_insert insert normalise_from].
    assert (Ha : normalise_arg num (VTuple [c; f; n])
                 = let? fs := normalise_func num f in
                   OK (_tupled_kw c fs n)).
    { unfold normalise_arg. simpl.
      destruct (normalise_func num f); simpl; [|reflexivity].
      now rewrite (normalise_name_falsy _ _ F). }
    assert (Hb : normalise_arg num (VTuple [c; f])
                 = let? fs := normalise_func num f in
                   OK (_tupled_kw c fs VNone)).
    { unfold normalise_arg. simpl.
      now destruct (normalise_func num f). }
    rewrite Ha, Hb.
    destruct (normalise_func num f) as [fs|e]; simpl; [|reflexivity].
    destruct (normalise_from (S num) xs) as [rest|e]; simpl; [|reflexivity].
    constructor; [|apply same_but_falsy_name_refl].
    repeat split; auto. right. now split.
  - cbn [list_insert insert normalise_from].
    destruct (normalise_arg num x) as [ag|e]; simpl; [|reflexivity].
    specialize (IH (S num) i Hi).
    destruct (normalise_from (S num) xs) as [a|e],
             (normalise_from (S num) (<[i:=VTuple [c; f]]> xs)) as [a'|e'];
      simpl; try contradiction; auto.
    constructor; auto. repeat split; auto.
Qed.

End FalsyName.

(** C9.  A request tuple whose third element is falsy (the empty string,
    [0], an empty container, ...) is handled as if the name were missing:
    the name is not checked to be a label, no output is ever renamed for
    it, and the whole call gives exactly what it gives for the tuple of
    two elements. *)
Theorem falsy_name_is_absent `{rt : Runtime} (df : loc) (by_ : value)
  (h : Heap) (args : list value) (i : nat) (c f n : value) :
  args !! i = Some (VTuple [c; f; n]) ->
  falsy n ->
  normalise_name i n = OK tt
  /\ (forall ag out h', name ag = n -> rename ag out h' = (OK tt, h'))
  /\ summarise df args by_ h
     = summarise df (<[i := VTuple [c; f]]> args) by_ h.
Proof.
  intros Hi F. split; [|split].
  - now apply normalise_name_falsy.
  - intros ag out h' <-. now apply rename_falsy.
  - pose proof (normalise_from_name_blind 0 i args c f n Hi F) as Hn.
    fold (normalise args) in Hn.
    fold (normalise (<[i := VTuple [c; f]]> args)) in Hn.
    assert (Hne : args <> []) by (intros ->; discriminate).
    assert (Hne' : <[i := VTuple [c; f]]> args <> []).
    { intros E. apply (f_equal length) in E.
      rewrite length_insert in E. destruct args; simpl in E; congruence. }
    destruct (normalise args) as [aggs|e] eqn:E,
             (normalise (<[i := VTuple [c; f]]> args)) as [aggs'|e'] eqn:E';
      try contradiction.
    + rewrite (summarise_unfold _ _ _ _ _ Hne E),
              (summarise_unfold _ _ _ _ _ Hne' E').
      unfold bind.
      destruct (resolve_by df by_ h) as [[grouping|e0] h1]; [|reflexivity].
      now rewrite (run_requests_name_blind _ _ _ _ Hn).
    + subst e'.
      now rewrite (summarise_normalise_Err _ _ _ _ _ E),
                  (summarise_normalise_Err _ _ _ _ _ E').
Qed.

(** ** C8: the input dataframe *)

Section ReadOnly.

Context `{rt : Runtime}.
Variable df : loc.
Variable f0 : DataFrame.
Hypothesis contract : isolates rt df.

Local Abbreviation pres := (preserves df f0).

Lemma pres_ret {A} (a : A) (Q : A -> Prop) : Q a -> pres (ret a) Q.
Proof. intros Ha h Hh. split; [exact Hh|]. intros a' E. now injection E as <-. Qed.

Lemma pres_raise {A} (e : Error) (Q : A -> Prop) : pres (raise e) Q.
Proof. intros h Hh. split; [exact Hh|]. discriminate. Qed.

Lemma pres_lift {A} (r : res A) (Q : A -> Prop) :
  (forall a, r = OK a -> Q a) -> pres (lift r) Q.
Proof. intros Hr h Hh. split; [exact Hh|]. exact Hr. Qed.

Lemma pres_bind {A B} (m : M A) (k : A -> M B) (Q1 : A -> Prop)
  (Q2 : B -> Prop) :
  pres m Q1 -> (forall a, Q1 a -> pres (k a) Q2) -> pres (bind m k) Q2.
Proof.
  intros Hm Hk h Hh. destruct (Hm h Hh) as [H1 H2]. unfold bind.
  destruct (m h) as [[a|e] h1]; simpl in *.
  - exact (Hk a (H2 a eq_refl) h1 H1).
  - split; [exact H1|discriminate].
Qed.

Lemma pres_try {A} (m handler : M A) (Q : A -> Prop) :
  pres m Q -> pres handler Q ->
  pres (try_except_AttributeError m handler) Q.
Proof.
  intros Hm Hhd h Hh. destruct (Hm h Hh) as [H1 H2].
  unfold try_except_AttributeError.
  destruct (m h) as [[a|e] h1]; simpl in *; [now split|].
  destruct e; try (split; [exact H1|discriminate]).
  exact (Hhd h1 H1).
Qed.

Lemma pres_forM {A B} (xs : list A) (f : A -> M B) (Q : B -> Prop) :
  (forall x, pres (f x) Q) -> pres (forM xs f) (Forall Q).
Proof.
  intros Hf. induction xs as [|x xs IH]; simpl.
  - apply pres_ret. constructor.
  - eapply pres_bind; [apply Hf|]. intros y Hy.
    eapply pres_bind; [apply IH|]. intros ys Hys.
    apply pres_ret. now constructor.
Qed.

Lemma pres_mapM_ {A} (xs : list A) (f : A -> M unit) :
  (forall x, In x xs -> pres (f x) (fun _ => True)) ->
  pres (mapM_ f xs) (fun _ => True).
Proof.
  induction xs as [|x xs IH]; intros Hf; simpl.
  - now apply pres_ret.
  - eapply pres_bind; [apply Hf; now left|]. intros _ _.
    apply IH. intros y Hy. apply Hf. now right.
Qed.

Lemma pres_foldM {A B} (f : B -> A -> M B) (xs : list A) (I : B -> Prop) :
  (forall acc x, I acc -> pres (f acc x) I) ->
  forall acc, I acc -> pres (foldM f xs acc) I.
Proof.
  intros Hf. induction xs as [|x xs IH]; intros acc Hacc; simpl.
  - now apply pres_ret.
  - eapply pres_bind; [now apply Hf|]. intros acc' Hacc'. now apply IH.
Qed.

(** The collaborators, under the contract. *)
Lemma pres_of_keeps {A} (m : M A) : keeps df m -> pres m (fun _ => True).
Proof.
  intros Hk h Hh. split; [|auto].
  rewrite (Hk h); [exact Hh|]. now rewrite Hh.
Qed.

Lemma pres_of_other (m : M value) :
  keeps df m -> yields_other df m ->
  pres m (fun v => exposes df v = false).
Proof.
  intros Hk Ho h Hh. split.
  - rewrite (Hk h); [exact Hh|]. now rewrite Hh.
  - intros v E. apply (Ho h v); [now rewrite Hh|exact E].
Qed.

Lemma pres_labels (sel : value) (l : loc) :
  pres (get_index_labels sel l)
       (fun ls => existsb (is_ref df) (tolist ls) = false).
Proof.
  intros h Hh. split.
  - rewrite (labels_keep _ _ contract sel l h); [exact Hh|]. now rewrite Hh.
  - intros ls E. apply (labels_other _ _ contract sel l h); [|exact E].
    now rewrite Hh.
Qed.

(** The writes of the function itself. *)
Lemma pres_deref (l : loc) : pres (deref l) (fun _ => True).
Proof.
  intros h Hh. unfold deref. destruct (h !! l); simpl; auto.
Qed.

Lemma pres_set_columns (l : loc) (ix : Index) :
  l <> df -> pres (set_columns l ix) (fun _ => True).
Proof.
  intros Hne h Hh. unfold set_columns. destruct (h !! l); simpl; auto.
  split; [|auto]. now rewrite lookup_insert_ne.
Qed.

Lemma is_ref_false (l : loc) : is_ref df (VFrame l) = false -> l <> df.
Proof. simpl. now intros H%Nat.eqb_neq. Qed.

Lemma exposes_is_ref (v : value) : exposes df v = false -> is_ref df v = false.
Proof. unfold exposes. now intros [H _]%orb_false_iff. Qed.

Lemma pres_columns_of (frame : value) : pres (columns_of frame) (fun _ => True).
Proof.
  destruct frame; try apply pres_raise.
  simpl. eapply pres_bind; [apply pres_deref|]. intros f _. now apply pres_ret.
Qed.

Lemma pres_assign_columns (frame : value) (ix : Index) :
  is_ref df frame = false -> pres (assign_columns frame ix) (fun _ => True).
Proof.
  intros Hf. destruct frame; try apply pres_raise.
  simpl. apply pres_set_columns. now apply is_ref_false.
Qed.

Lemma pres_rename (ag : Request) (out : value) :
  is_ref df out = false -> pres (rename ag out) (fun _ => True).
Proof.
  intros Ho. unfold rename.
  eapply pres_bind; [apply (pres_lift _ (fun _ => True)); auto|].
  intros [|] _; [|now apply pres_ret].
  destruct out; try (now apply pres_ret).
  eapply pres_bind; [apply pres_deref|]. intros f _.
  destruct (_ =? 1); [|now apply pres_ret].
  eapply pres_bind; [apply (pres_lift _ (fun _ => True)); auto|].
  intros ix _. apply pres_set_columns. now apply is_ref_false.
Qed.

Lemma Forall_not_ref (vs : list value) :
  Forall (fun v => exposes df v = false) vs ->
  existsb (is_ref df) vs = false.
Proof.
  induction 1 as [|v vs Hv _ IH]; simpl; [reflexivity|].
  now rewrite (exposes_is_ref _ Hv), IH.
Qed.

Lemma pres_fallback (val : view) (out : list value) (ag : Request) :
  existsb (is_ref df) out = false ->
  pres (fallback val out ag) (fun v => exposes df v = false).
Proof.
  intros Hout. unfold fallback.
  destruct (forallb callable _).
  - eapply pres_bind.
    + apply pres_forM. intros fn. apply pres_of_other.
      * apply (pipe_keeps _ _ contract).
      * apply (pipe_other _ _ contract).
    + intros outs Houts. apply pres_ret.
      destruct outs as [|o [|o' outs]]; simpl.
      * reflexivity.
      * now inversion Houts.
      * unfold exposes. simpl. exact (Forall_not_ref _ Houts).
  - apply pres_ret. unfold exposes. simpl. exact Hout.
Qed.

Lemma pres_aggregate (val : view) (out : list value) (ag : Request) :
  existsb (is_ref df) out = false ->
  pres (aggregate val out ag) (fun v => exposes df v = false).
Proof.
  intros Hout. unfold aggregate.
  eapply pres_bind; [apply (pres_lift _ (fun _ => True)); auto|].
  intros f1 _.
  assert (Hagg : forall fn, pres (agg val out fn)
                                 (fun v => exposes df v = false)).
  { intros fn. apply pres_of_other.
    - apply (agg_keeps _ _ contract).
    - apply (agg_other _ _ contract). }
  destruct (eq_str f1 "describe"); [apply Hagg|].
  apply pres_try; [apply Hagg|now apply pres_fallback].
Qed.

Lemma collect_not_ref (acc : list value) (out : value) :
  existsb (is_ref df) acc = false ->
  exposes df out = false ->
  existsb (is_ref df) (collect acc out) = false.
Proof.
  intros Hacc Hout. unfold collect, exposes in *.
  apply orb_false_iff in Hout as [Hr Hl].
  destruct out; rewrite existsb_app, Hacc; simpl; simpl in Hr;
    try reflexivity; try exact Hl.
  now rewrite Hr.
Qed.

Lemma pres_run_request (val : view) (acc : list value) (ag : Request) :
  existsb (is_ref df) acc = false ->
  pres (run_request df val acc ag)
       (fun acc' => existsb (is_ref df) acc' = false).
Proof.
  intros Hacc. unfold run_request.
  eapply pres_bind; [apply pres_labels|]. intros sel Hsel. simpl in Hsel.
  eapply pres_bind; [apply (pres_lift _ (fun _ => True)); auto|].
  intros [|] _; [apply pres_raise|].
  eapply pres_bind; [now apply pres_aggregate|]. intros out Hout.
  eapply pres_bind; [apply pres_rename; now apply exposes_is_ref|].
  intros _ _. apply pres_ret. now apply collect_not_ref.
Qed.

Lemma pres_pad (k : nat) (frame : value) :
  is_ref df frame = false -> pres (pad k frame) (fun _ => True).
Proof.
  intros Hf. unfold pad.
  eapply pres_bind; [apply pres_columns_of|]. intros cols _.
  destruct (_ <? k); [|now apply pres_ret].
  now apply pres_assign_columns.
Qed.

Lemma pres_reconcile (aggs_ : list value) :
  existsb (is_ref df) aggs_ = false ->
  pres (reconcile aggs_) (fun _ => True).
Proof.
  intros Hno. unfold reconcile.
  eapply pres_bind.
  { apply (pres_forM _ _ (fun _ => True)). intros frame.
    eapply pres_bind; [apply pres_columns_of|]. intros cols _.
    now apply pres_ret. }
  intros depths _.
  destruct (1 <? size _); [|now apply pres_ret].
  apply pres_mapM_. intros frame Hin. apply pres_pad.
  destruct (is_ref df frame) eqn:E; [|reflexivity].
  assert (existsb (is_ref df) aggs_ = true); [|congruence].
  apply existsb_exists. now exists frame.
Qed.

Lemma pres_assemble (by_is_true : bool) (aggs_ : list value) :
  existsb (is_ref df) aggs_ = false ->
  pres (assemble by_is_true aggs_) (fun _ => True).
Proof.
  intros Hno. unfold assemble.
  destruct (1 <? length aggs_).
  - eapply pres_bind; [now apply pres_reconcile|]. intros _ _.
    apply pres_of_keeps. apply (concat_keeps _ _ contract).
  - apply pres_lift. auto.
Qed.

Lemma pres_resolve_by (by_ : value) :
  pres (resolve_by df by_) (fun _ => True).
Proof.
  unfold resolve_by.
  eapply pres_bind; [apply (pres_lift _ (fun _ => True)); auto|].
  intros [|] _; [|now apply pres_ret].
  assert (Hg : forall spec,
            pres (let* val := groupby df spec in ret (Grouped val, true))
                 (fun _ => True)).
  { intros spec. eapply pres_bind.
    - apply pres_of_keeps. apply (groupby_keeps _ _ contract).
    - intros g _. now apply pres_ret. }
  destruct by_; try apply Hg;
    (eapply pres_bind; [apply pres_labels|]; intros sel _; apply Hg).
Qed.

Lemma pres_summarise (args : list value) (by_ : value) :
  pres (summarise df args by_) (fun _ => True).
Proof.
  unfold summarise. destruct (is_nil args); [apply pres_raise|].
  eapply pres_bind; [apply (pres_lift _ (fun _ => True)); auto|].
  intros aggs _.
  eapply pres_bind; [apply pres_resolve_by|]. intros grouping _.
  eapply pres_bind.
  - unfold run_requests.
    apply (pres_foldM _ _ (fun acc => existsb (is_ref df) acc = false)).
    + intros acc ag Hacc. now apply pres_run_request.
    + reflexivity.
  - intros aggs_ Hno. now apply pres_assemble.
Qed.

End ReadOnly.

(** C8, as amended.  Whenever the collaborators treat the input dataframe
    as read-only and hand back objects of their own (the contract
    [isolates]), a call leaves the table stored for the input exactly as it
    was: its header, its index and its cells are the same after the call,
    whether the call returns or raises. *)
Theorem input_dataframe_unchanged `{rt : Runtime} (df : loc)
  (args : list value) (by_ : value) (h : Heap) :
  isolates rt df ->
  is_Some (h !! df) ->
  (summarise df args by_ h).2 !! df = h !! df.
Proof.
  intros Hc [f0 Hf0]. rewrite Hf0.
  exact (proj1 (pres_summarise df f0 Hc args by_ h Hf0)).
Qed.

(** The sample runtime honours the contract as long as no callable of its
    table captures the input dataframe. *)
Section SampleContract.

Variable df : loc.

Lemma alloc_keeps (f : DataFrame) (h : Heap) :
  is_Some (h !! df) -> (Sample.alloc f h).2 !! df = h !! df.
Proof.
  intros Hs. unfold Sample.alloc. simpl.
  apply lookup_insert_ne. intros E.
  apply (is_fresh (dom h)). rewrite E. now apply elem_of_dom.
Qed.

Lemma build_keeps (make : Heap -> res DataFrame) : keeps df (Sample.build make).
Proof.
  intros h Hs. unfold Sample.build.
  destruct (make h); [now apply alloc_keeps|reflexivity].
Qed.

Lemma build_other (make : Heap -> res DataFrame) :
  yields_other df (Sample.build make).
Proof.
  intros h v Hs. unfold Sample.build.
  destruct (make h); [|discriminate].
  unfold Sample.alloc. simpl. intros E. injection E as <-.
  unfold exposes. simpl. rewrite orb_false_r. apply Nat.eqb_neq.
  intros E. apply (is_fresh (dom h)). rewrite E. now apply elem_of_dom.
Qed.

Lemma sample_labels_other (vs : list value) :
  forallb Sample.is_label vs = true -> existsb (is_ref df) vs = false.
Proof.
  induction vs as [|v vs IH]; simpl; [reflexivity|].
  intros [Hv Hvs]%andb_true_iff. rewrite (IH Hvs).
  now destruct v.
Qed.

Lemma sample_labels_store (sel : value) (l : loc) (h : Heap) :
  (Sample.sample_get_index_labels sel l h).2 = h.
Proof.
  unfold Sample.sample_get_index_labels.
  destruct (Sample.frame_at h l) as [f|]; [|reflexivity].
  destruct sel; simpl;
    repeat match goal with
           | |- context [if ?b then _ else _] => destruct b
           end; reflexivity.
Qed.

Lemma sample_labels_are_labels (sel : value) (l : loc) (h : Heap) ls :
  (Sample.sample_get_index_labels sel l h).1 = OK ls ->
  forallb Sample.is_label (tolist ls) = true.
Proof.
  unfold Sample.sample_get_index_labels.
  destruct (Sample.frame_at h l) as [f|]; [|discriminate].
  destruct sel; simpl; try discriminate;
    try (destruct (Sample.known_label f _); [|discriminate];
         intros [= <-]; reflexivity).
  destruct (forallb (Sample.known_label f) xs) eqn:Hk; [|discriminate].
  intros [= <-]. simpl.
  rewrite forallb_forall in Hk. apply forallb_forall. intros v Hv.
  specialize (Hk v Hv). unfold Sample.known_label in Hk.
  now apply andb_true_iff in Hk as [Hk _].
Qed.

Lemma sample_isolates (callables : list Sample.behaviour) :
  Sample.no_capture df callables = true ->
  isolates (Sample.runtime callables) df.
Proof.
  intros Hno.
  assert (Hcap : forall c l, callables !! c = Some (Sample.Captured l) ->
                             l <> df).
  { intros c l Hc. unfold Sample.no_capture in Hno.
    rewrite forallb_forall in Hno.
    specialize (Hno _ (proj1 (list_elem_of_In _ _)
                               (list_elem_of_lookup_2 _ _ _ Hc))).
    simpl in Hno. now apply negb_true_iff, Nat.eqb_neq in Hno. }
  assert (Hpipe : forall val cols fn,
            keeps df (Sample.sample_pipe callables val cols fn)
            /\ yields_other df (Sample.sample_pipe callables val cols fn)).
  { intros val cols fn. unfold Sample.sample_pipe.
    destruct fn; try (split; [intros h Hs; reflexivity
                             |intros h v Hs; discriminate]).
    destruct (callables !! c) as [[label f| |l]|] eqn:Hc.
    - split; [apply build_keeps|apply build_other].
    - split; [apply build_keeps|apply build_other].
    - split; [intros h Hs; reflexivity|].
      intros h v Hs E. injection E as <-. unfold exposes. simpl.
      rewrite orb_false_r. apply Nat.eqb_neq. eauto.
    - split; [intros h Hs; reflexivity|intros h v Hs; discriminate]. }
  split; simpl.
  - intros sel l h Hs. now rewrite sample_labels_store.
  - intros sel l h ls Hs E. apply sample_labels_other.
    exact (sample_labels_are_labels _ _ _ _ E).
  - intros l by_ h Hs. unfold Sample.sample_groupby.
    now destruct (Sample.open_view _ _).
  - intros val cols fn. apply build_keeps.
  - intros val cols fn. apply build_other.
  - intros val cols fn. apply Hpipe.
  - intros val cols fn. apply Hpipe.
  - intros frames axis. apply build_keeps.
Qed.

End SampleContract.

(** ** The statements at work on the sample runtime *)

Lemma falsy_by_is_ungrouped_witness :
  let rt := Sample.runtime [] in
  let h : Heap := {[ 0 := Sample.athletes ]} in
  let args := [VTuple [VStr "avg_run"; VStr "sum"];
               VTuple [VStr "avg_jump"; VStr "max"]] in
  summarise 0 args (VList []) h = summarise 0 args VNone h
  /\ exists h2 h3,
       run_requests 0 (Whole 0)
         [_tupled_kw (VStr "avg_run") (VList [VStr "sum"]) VNone;
          _tupled_kw (VStr "avg_jump") (VList [VStr "max"]) VNone] [] h
       = (OK [VFrame 1; VFrame 2], h2)
       /\ reconcile [VFrame 1; VFrame 2] h2 = (OK tt, h3)
       /\ summarise 0 args (VList []) h
          = pd_concat [VFrame 1; VFrame 2] 0 h3.
Proof.
  intros rt h args.
  destruct (falsy_by_is_ungrouped 0 args (VList []) h eq_refl)
    as (_ & Hsame & _ & Hmerge).
  split; [exact Hsame|].
  pose (aggs := [_tupled_kw (VStr "avg_run") (VList [VStr "sum"]) VNone;
                 _tupled_kw (VStr "avg_jump") (VList [VStr "max"]) VNone]).
  pose (h2 := (run_requests 0 (Whole 0) aggs [] h).2).
  assert (Hn : normalise args = OK aggs) by (vm_compute; reflexivity).
  assert (Hrun : run_requests 0 (Whole 0) aggs [] h
                 = (OK [VFrame 1; VFrame 2], h2))
    by (vm_compute; reflexivity).
  assert (Hlen : 1 < length [VFrame 1; VFrame 2]) by (simpl; lia).
  assert (Hall : Forall (is_table h2) [VFrame 1; VFrame 2]).
  { repeat constructor; eexists _, _; (split; [reflexivity|]);
      vm_compute; reflexivity. }
  destruct (Hmerge aggs [VFrame 1; VFrame 2] h2 Hn Hrun Hlen Hall)
    as (h3 & Hr & _ & Hs).
  exists h2, h3. split; [exact Hrun|]. split; [exact Hr|exact Hs].
Defined.

Lemma tuple_arity_outside_2_3_witness :
  summarise (rt := Sample.runtime []) 0
    [VTuple [VStr "avg_run"; VStr "sum"]; VTuple [VStr "avg_run"]] VNone
    {[ 0 := Sample.athletes ]}
  = (Err (ValueError (arity_low_msg 1)), {[ 0 := Sample.athletes ]}).
Proof.
  pose proof (proj1 (tuple_arity_outside_2_3 (rt := Sample.runtime []) 0
    VNone {[ 0 := Sample.athletes ]}
    [VTuple [VStr "avg_run"; VStr "sum"]; VTuple [VStr "avg_run"]]
    1 [VStr "avg_run"] eq_refl)) as H.
  assert (Hbad : length [VStr "avg_run"] < 2 \/ 3 < length [VStr "avg_run"]).
  { left. simpl. lia. }
  specialize (H Hbad). cbv zeta in H.
  destruct H as (_ & _ & H & _).
  eapply H. vm_compute. reflexivity.
Defined.

Lemma normaliser_checks_func_not_its_elements_witness :
  normalise_func 0 (VInt 5) = Err (CheckFailed (func_varname 0))
  /\ normalise_arg 0 (VTuple [VStr "avg_run"; VInt 5])
     = Err (CheckFailed (func_varname 0)).
Proof.
  exact (proj1 (proj2 (proj2
    (normaliser_checks_func_not_its_elements 0 (VStr "avg_run") (VInt 5))))
    eq_refl eq_refl).
Defined.

(** C3, as first stated, fails: a list whose elements are neither strings
    nor callables goes through the normaliser. *)
Lemma list_elements_are_not_validated :
  let arg := VTuple [VStr "avg_run"; VList [VInt 1; VNone]] in
  is_str (VInt 1) || callable (VInt 1) = false
  /\ normalise_arg 0 arg
     = OK (_tupled_kw (VStr "avg_run") (VList [VInt 1; VNone]) VNone)
  /\ forall e, normalise_arg 0 arg <> Err e.
Proof.
  intros arg. split; [reflexivity|]. split; [reflexivity|].
  intros e. discriminate.
Qed.

Lemma describe_with_other_functions_witness :
  summarise (rt := Sample.runtime []) 0
    [VTuple [VStr "avg_run"; VList [VStr "describe"; VStr "sum"]]] VNone
    {[ 0 := Sample.athletes ]}
  = (Err (ValueError describe_msg), {[ 0 := Sample.athletes ]}).
Proof.
  assert (Hlen : 1 < length [VStr "describe"; VStr "sum"]).
  { simpl. lia. }
  destruct (describe_with_other_functions (rt := Sample.runtime []) 0 VNone
    {[ 0 := Sample.athletes ]}
    [VTuple [VStr "avg_run"; VList [VStr "describe"; VStr "sum"]]]
    0 (VStr "avg_run") [VStr "describe"; VStr "sum"] [] eq_refl
    (or_introl eq_refl) Hlen) as (_ & H & _ & _ & _).
  destruct (H [_tupled_kw (VStr "avg_run")
                 (VList [VStr "describe"; VStr "sum"]) VNone]
              (Whole 0, false) {[ 0 := Sample.athletes ]} []
              {[ 0 := Sample.athletes ]} (Scalar (VStr "avg_run"))
              {[ 0 := Sample.athletes ]})
    as (m & Hs & _ & Hm).
  - vm_compute. reflexivity.
  - vm_compute. reflexivity.
  - vm_compute. reflexivity.
  - vm_compute. reflexivity.
  - rewrite Hs, Hm; [reflexivity|]. repeat constructor.
Defined.

(** C6, as first stated, fails: the request holds ["describe"] next to
    another function, but its column selector names no column; resolving
    it raises a [KeyError] before the check on the functions is reached,
    and that is no invalid-argument error. *)
Lemma unknown_column_hides_describe_conflict :
  let r := summarise (rt := Sample.runtime []) 0
             [VTuple [VStr "nope"; VList [VStr "sum"; VStr "describe"]]]
             VNone {[ 0 := Sample.athletes ]} in
  r.1 = Err (KeyError "no match for the selection")
  /\ is_InvalidArgument (KeyError "no match for the selection") = false
  /\ forall e, r.1 = Err e -> is_InvalidArgument e = false.
Proof.
  intros r.
  assert (Hr : r.1 = Err (KeyError "no match for the selection"))
    by (vm_compute; reflexivity).
  split; [exact Hr|]. split; [reflexivity|].
  intros e He. rewrite Hr in He. now injection He as <-.
Qed.

Lemma unsupported_symbol_is_swallowed_witness :
  summarise (rt := Sample.runtime []) 0
    [VTuple [VStr "avg_run"; VStr "foo"]] VNone {[ 0 := Sample.athletes ]}
  = (OK (VStr "avg_run"), {[ 0 := Sample.athletes ]}).
Proof.
  eapply (unsupported_symbol_is_swallowed (rt := Sample.runtime []) 0
            _ _ _ _ _ "foo").
  - discriminate.
  - vm_compute. reflexivity.
  - vm_compute. reflexivity.
  - reflexivity.
Defined.



Lemma merge_axis_follows_grouping_witness :
  let rt := Sample.runtime [] in
  let h : Heap := {[ 0 := Sample.athletes ]} in
  let args := [VTuple [VStr "avg_run"; VStr "sum"];
               VTuple [VStr "avg_jump"; VStr "max"]] in
  let by_ := VStr "category" in
  exists h2 h3,
    reconcile [VFrame 1; VFrame 2] h2 = (OK tt, h3)
    /\ summarise 0 args by_ h = pd_concat [VFrame 1; VFrame 2] 1 h3.
Proof.
  intros rt h args by_.
  pose (aggs := [_tupled_kw (VStr "avg_run") (VList [VStr "sum"]) VNone;
                 _tupled_kw (VStr "avg_jump") (VList [VStr "max"]) VNone]).
  pose (grouping := (Grouped (mkGroupBy 0 (ByKeys [VStr "category"])), true)).
  pose (h2 := (run_requests 0 grouping.1 aggs [] h).2).
  assert (Hn : normalise args = OK aggs) by (vm_compute; reflexivity).
  assert (Hg : resolve_by 0 by_ h = (OK grouping, h))
    by (vm_compute; reflexivity).
  assert (Hrun : run_requests 0 grouping.1 aggs [] h
                 = (OK [VFrame 1; VFrame 2], h2))
    by (vm_compute; reflexivity).
  assert (Hlen : 1 < length [VFrame 1; VFrame 2]) by (simpl; lia).
  assert (Hall : Forall (is_table h2) [VFrame 1; VFrame 2]).
  { repeat constructor; eexists _, _; (split; [reflexivity|]);
      vm_compute; reflexivity. }
  destruct (merge_axis_follows_grouping 0 args by_ h h h2 aggs grouping
              [VFrame 1; VFrame 2] Hn Hg Hrun Hlen Hall)
    as [_ [h3 (Hr & _ & _ & Hs)]].
  exists h2, h3. split; [exact Hr|exact Hs].
Defined.

Lemma falsy_name_is_absent_witness :
  summarise (rt := Sample.runtime []) 0
    [VTuple [VStr "avg_run"; VStr "sum"; VStr ""]] VNone
    {[ 0 := Sample.athletes ]}
  = summarise (rt := Sample.runtime []) 0
      [VTuple [VStr "avg_run"; VStr "sum"]] VNone
      {[ 0 := Sample.athletes ]}.
Proof.
  exact (proj2 (proj2
    (falsy_name_is_absent (rt := Sample.runtime []) 0 VNone
       {[ 0 := Sample.athletes ]}
       [VTuple [VStr "avg_run"; VStr "sum"; VStr ""]] 0
       (VStr "avg_run") (VStr "sum") (VStr "") eq_refl eq_refl))).
Defined.

Lemma input_dataframe_unchanged_witness :
  (summarise (rt := Sample.runtime Sample.callables) 0
     [VTuple [VStr "avg_run"; VCallable 1; VStr "pace"]] VNone
     {[ 0 := Sample.runs ]}).2 !! 0
  = ({[ 0 := Sample.runs ]} : Heap) !! 0.
Proof.
  apply (input_dataframe_unchanged (rt := Sample.runtime Sample.callables)).
  - apply sample_isolates. reflexivity.
  - exists Sample.runs. vm_compute. reflexivity.
Defined.

(** C8, as first stated, fails: a callable reached through the fallback
    may hand back the input dataframe itself; the function then renames
    the sole column of that very object. *)
Lemma closure_output_is_renamed_in_place :
  let h : Heap := {[ 0 := Sample.runs ]} in
  let r := summarise (rt := Sample.runtime Sample.closures) 0
             [VTuple [VStr "avg_run"; VCallable 0; VStr "pace"]] VNone h in
  r.1 = OK (VFrame 0)
  /\ r.2 !! 0 = Some (with_columns (index_over [VStr "pace"]) Sample.runs)
  /\ r.2 !! 0 <> h !! 0.
Proof.
  intros h r. split; [vm_compute; reflexivity|].
  split; [vm_compute; reflexivity|].
  intros E. vm_compute in E. discriminate.
Qed.

Lemma padding_stops_at_count_of_depths_witness :
  let rt := Sample.runtime [] in
  let h : Heap := {[ 0 := Sample.nested ]} in
  let args := [VTuple [VList [VTuple [VStr "avg"; VStr "run"]]; VStr "sum";
                       VStr "total"];
               VTuple [VList [VTuple [VStr "avg"; VStr "jump"]]; VStr "sum"]] in
  let by_ := VList [VTuple [VStr "id"; VStr "category"]] in
  exists aggs grouping h1 h2 h3,
    normalise args = OK aggs
    /\ resolve_by 0 by_ h = (OK grouping, h1)
    /\ run_requests 0 grouping.1 aggs [] h1 = (OK [VFrame 1; VFrame 2], h2)
    /\ header_depths h2 [VFrame 1; VFrame 2] = [Some 1; Some 3]
    /\ distinct_depths h2 [VFrame 1; VFrame 2] = 2
    /\ reconcile [VFrame 1; VFrame 2] h2 = (OK tt, h3)
    /\ header_depths h3 [VFrame 1; VFrame 2] = [Some 2; Some 3]
    /\ summarise 0 args by_ h = pd_concat [VFrame 1; VFrame 2] 1 h3
    /\ (summarise 0 args by_ h).1 = OK (VFrame 3).
Proof.
  intros rt h args by_.
  pose (aggs := [_tupled_kw (VList [VTuple [VStr "avg"; VStr "run"]])
                            (VList [VStr "sum"]) (VStr "total");
                 _tupled_kw (VList [VTuple [VStr "avg"; VStr "jump"]])
                            (VList [VStr "sum"]) VNone]).
  pose (grouping :=
          (Grouped (mkGroupBy 0 (ByKeys [VTuple [VStr "id"; VStr "category"]])),
           true)).
  pose (h2 := (run_requests 0 grouping.1 aggs [] h).2).
  pose (f1 := default Sample.runs (h2 !! 1)).
  pose (f2 := default Sample.runs (h2 !! 2)).
  assert (Hall : Forall (is_table h2) [VFrame 1; VFrame 2]).
  { repeat constructor; eexists _, _; (split; [reflexivity|]);
      vm_compute; reflexivity. }
  assert (Hl1 : h2 !! 1 = Some f1) by (vm_compute; reflexivity).
  assert (Hl2 : h2 !! 2 = Some f2) by (vm_compute; reflexivity).
  assert (Hd1 : nlevels (columns f1) = 1) by (vm_compute; reflexivity).
  assert (Hd2 : nlevels (columns f2) = 3) by (vm_compute; reflexivity).
  assert (Hk : distinct_depths h2 [VFrame 1; VFrame 2] = 2)
    by (vm_compute; reflexivity).
  destruct (padding_stops_at_count_of_depths h2 [VFrame 1; VFrame 2] 1 2
              f1 f2 Hall)
    as (h3 & f1' & Hr & Hl1' & Hl2' & _ & Hd1' & _ & Hcall).
  - now left.
  - right. now left.
  - exact Hl1.
  - exact Hl2.
  - rewrite Hd1, Hd2. lia.
  - rewrite Hk, Hd2. lia.
  - exists aggs, grouping, h, h2, h3.
    split; [vm_compute; reflexivity|].
    split; [vm_compute; reflexivity|].
    split; [vm_compute; reflexivity|].
    split; [vm_compute; reflexivity|].
    split; [exact Hk|].
    split; [exact Hr|].
    split; [|split; [|vm_compute; reflexivity]].
    + unfold header_depths. simpl. rewrite Hl1', Hl2'. simpl.
      now rewrite Hd1', Hd1, Hk, Hd2.
    + apply (Hcall 0 args by_ h aggs grouping h);
        vm_compute; reflexivity.
Defined.

(** * Further properties of the function *)

(** ** Validation comes first *)

(** X1.  The batch is validated as a whole before anything else happens:
    an empty batch, or a batch the normaliser rejects at any position,
    makes the call fail with that invalid-argument error, the store
    untouched, whatever the grouping argument and the collaborators are. *)
Theorem validation_precedes_execution `{rt : Runtime} (df : loc)
  (args : list value) (by_ : value) (h : Heap) :
  (args = [] ->
     summarise df args by_ h
     = (Err (ValueError "Kindly provide at least one aggregation tuple."), h))
  /\ (forall e, normalise args = Err e ->
        summarise df args by_ h = (Err e, h)
        /\ is_InvalidArgument e = true).
Proof.
  split.
  - intros ->. reflexivity.
  - intros e E. split; [now apply summarise_normalise_Err|].
    exact (normalise_from_Err_invalid _ _ _ E).
Qed.

(** ** What the normaliser hands over *)

Lemma normalise_from_length (num : nat) (args : list value) aggs :
  normalise_from num args = OK aggs -> length aggs = length args.
Proof.
  revert num aggs. induction args as [|x xs IH]; intros num aggs; simpl.
  - now intros [= <-].
  - destruct (normalise_arg num x); simpl; [|discriminate].
    destruct (normalise_from (S num) xs) as [rest|] eqn:E; simpl;
      [|discriminate].
    intros [= <-]. simpl. f_equal. eauto.
Qed.

Lemma normalise_arg_OK_tuple (num : nat) (arg : value) ag :
  normalise_arg num arg = OK ag ->
  exists c f rest, arg = VTuple (c :: f :: rest).
Proof.
  unfold normalise_arg.
  destruct arg; try discriminate.
  simpl. destruct (check_arity num xs) as [[]|] eqn:Ea; simpl;
    [|discriminate].
  apply check_arity_pass in Ea.
  destruct xs as [|c [|f rest]]; simpl in Ea; try lia.
  intros _. now exists c, f, rest.
Qed.

Lemma normalise_func_OK (num : nat) (f v : value) :
  normalise_func num f = OK v ->
  v = (if is_str f || callable f then VList [f] else f)
  /\ exists fs, v = VList fs.
Proof.
  unfold normalise_func.
  destruct (is_str f || callable f) eqn:Ew; simpl.
  - intros [= <-]. split; [reflexivity|]. now exists [f].
  - apply orb_false_iff in Ew as [Hs Hc].
    destruct f; simpl in *; try discriminate.
    intros [= <-]. split; [reflexivity|]. now exists xs.
Qed.

(** X2.  A batch that passes the normaliser yields one request per tuple,
    in the same order; the request at position [i] carries the first
    element of the tuple as its column selector, the third element (or
    [None] for a pair) as its name, and a function that is always a list:
    the list given, or the one-element list around a single string or
    callable. *)
Theorem normalise_keeps_order_and_lists (args : list value)
  (aggs : list Request) :
  normalise args = OK aggs ->
  length aggs = length args
  /\ forall i ag, aggs !! i = Some ag ->
       exists c f rest,
         args !! i = Some (VTuple (c :: f :: rest))
         /\ length rest <= 1
         /\ col ag = c
         /\ name ag = nth 0 rest VNone
         /\ func ag = (if is_str f || callable f then VList [f] else f)
         /\ exists fs, func ag = VList fs.
Proof.
  intros E. pose proof (normalise_from_length _ _ _ E) as Hlen.
  split; [exact Hlen|].
  intros i ag Hi.
  assert (Hlt : i < length args).
  { rewrite <- Hlen. now apply lookup_lt_Some in Hi. }
  destruct (lookup_lt_is_Some_2 _ _ Hlt) as [arg Harg].
  destruct (normalise_from_lookup _ _ _ _ _ Harg E) as (ag' & Ha & Hl & _).
  assert (ag' = ag) as -> by congruence. simpl in Ha.
  destruct (normalise_arg_OK_tuple _ _ _ Ha) as (c & f & rest & ->).
  apply normalise_arg_OK_inv in Ha as (Hc & Hf & Hn & Hr).
  apply normalise_func_OK in Hf as [Hw Hfs].
  exists c, f, rest. repeat split; auto.
Qed.

(** ** The name of a request *)

Lemma name_varname_inj (i j : nat) :
  name_varname i = name_varname j -> i = j.
Proof.
  unfold name_varname. intros E.
  apply (inj (String.app _)) in E.
  exact (inj pretty _ _ E).
Qed.

(** X3.  A truthy name is checked to be hashable: a non-empty list or
    dictionary as name makes the normaliser fail with a check failure whose
    text carries the position (two positions never share that text), and
    any other truthy name is kept as it is. *)
Theorem truthy_name_must_be_hashable (num : nat) (c f n fs : value) :
  normalise_func num f = OK fs ->
  truthy n = OK true ->
  (isinstance n THashable = false ->
     normalise_arg num (VTuple [c; f; n])
     = Err (CheckFailed (name_varname num)))
  /\ (isinstance n THashable = true ->
      normalise_arg num (VTuple [c; f; n]) = OK (_tupled_kw c fs n))
  /\ (forall j, name_varname j = name_varname num -> j = num).
Proof.
  intros Hf T.
  assert (Hn : normalise_name num n
               = if isinstance n THashable then OK tt
                 else Err (CheckFailed (name_varname num))).
  { unfold normalise_name, check. rewrite T. simpl.
    now rewrite orb_false_r. }
  split; [|split].
  - intros Hh. unfold normalise_arg. simpl. rewrite Hf. simpl.
    now rewrite Hn, Hh.
  - intros Hh. unfold normalise_arg. simpl. rewrite Hf. simpl.
    now rewrite Hn, Hh.
  - intros j. apply name_varname_inj.
Qed.

(** ** One function or a list of one function *)

Lemma normalise_from_replace (num i : nat) (args : list value)
  (arg arg' : value) :
  args !! i = Some arg ->
  (forall n, normalise_arg n arg' = normalise_arg n arg) ->
  normalise_from num (<[i := arg']> args) = normalise_from num args.
Proof.
  intros Hi Heq. revert num i Hi.
  induction args as [|x xs IH]; intros num i Hi; [discriminate|].
  destruct i as [|i]; simpl in Hi.
  - injection Hi as ->. cbn [list_insert insert normalise_from].
    now rewrite Heq.
  - cbn [list_insert insert normalise_from]. now rewrite (IH _ _ Hi).
Qed.

Lemma summarise_same_requests `{rt : Runtime} (df : loc)
  (args args' : list value) (by_ : value) (h : Heap) :
  is_nil args' = is_nil args ->
  normalise args' = normalise args ->
  summarise df args' by_ h = summarise df args by_ h.
Proof.
  intros Hnil Hn. unfold summarise. rewrite Hnil.
  destruct (is_nil args); [reflexivity|].
  unfold bind at 1 5. unfold lift. now rewrite Hn.
Qed.

(** X4.  A single string or callable and the one-element list holding it
    are the same request: replacing either form by the other, at any
    position of any batch, changes neither the result nor the final
    store. *)
Theorem single_function_is_one_element_list `{rt : Runtime} (df : loc)
  (by_ : value) (h : Heap) (args : list value) (i : nat) (c f : value)
  (rest : list value) :
  args !! i = Some (VTuple (c :: f :: rest)) ->
  is_str f || callable f = true ->
  summarise df (<[i := VTuple (c :: VList [f] :: rest)]> args) by_ h
  = summarise df args by_ h.
Proof.
  intros Hi Hw. apply summarise_same_requests.
  - destruct args; [discriminate|]. now destruct i.
  - apply (normalise_from_replace 0 i args _ _ Hi).
    intros n. unfold normalise_arg, normalise_func, check_arity.
    destruct rest as [|x [|? ?]]; simpl; rewrite ?Hw; reflexivity.
Qed.

(** ** Failures of the request loop *)

Section Failures.

Context `{rt : Runtime}.

(** X5.  Once the batch is normalised, the first stage that fails decides
    the outcome: a failure of the grouping is the failure of the call, and
    so is the failure of the first request that fails; the store is left
    as it was at that point, nothing that comes later is run and no result
    is returned. *)
Theorem first_failure_decides (df : loc) (args : list value) (by_ : value)
  (h : Heap) (aggs : list Request) :
  args <> [] ->
  normalise args = OK aggs ->
  (forall e h1, resolve_by df by_ h = (Err e, h1) ->
     summarise df args by_ h = (Err e, h1))
  /\ (forall grouping h1 i ag acc h2 e h3,
        resolve_by df by_ h = (OK grouping, h1) ->
        aggs !! i = Some ag ->
        run_requests df grouping.1 (take i aggs) [] h1 = (OK acc, h2) ->
        run_request df grouping.1 acc ag h2 = (Err e, h3) ->
        summarise df args by_ h = (Err e, h3)).
Proof.
  intros Hne E. split.
  - intros e h1 Hg. rewrite (summarise_unfold _ _ _ _ _ Hne E).
    unfold bind. now rewrite Hg.
  - intros grouping h1 i ag acc h2 e h3 Hg Hi Hrun Hreq.
    rewrite (summarise_unfold _ _ _ _ _ Hne E).
    rewrite (bind_OK _ _ _ _ _ Hg). unfold bind at 1. unfold run_requests.
    rewrite (foldM_split _ _ _ _ _ _ _ _ Hi Hrun).
    unfold bind at 1. now rewrite Hreq.
Qed.

Lemma run_request_no_function (df : loc) (val : view) (acc : list value)
  (ag : Request) (h : Heap) :
  func ag = VList [] ->
  run_request df val acc ag h
  = match get_index_labels (col ag) df h with
    | (OK _, h1) => (Err (IndexError "list index out of range"), h1)
    | (Err e, h1) => (Err e, h1)
    end.
Proof.
  intros Hf. unfold run_request, bind.
  destruct (get_index_labels (col ag) df h) as [[sel|e] h1]; [|reflexivity].
  unfold describe_conflict, aggregate, bind, lift. rewrite Hf. reflexivity.
Qed.

(** X6.  An empty function list passes the normaliser, and the request
    then fails: the call never returns a result, and the failure is the
    [IndexError] of taking the first function as soon as the grouping, the
    requests before it and its own column selector are fine. *)
Theorem empty_function_list_fails (df : loc) (by_ : value) (h : Heap)
  (args : list value) (i : nat) (c : value) (rest : list value) :
  args !! i = Some (VTuple (c :: VList [] :: rest)) ->
  normalise_func i (VList []) = OK (VList [])
  /\ (exists e, (summarise df args by_ h).1 = Err e)
  /\ (forall aggs grouping h1 aggs_ h2 sel h3,
        normalise args = OK aggs ->
        resolve_by df by_ h = (OK grouping, h1) ->
        run_requests df grouping.1 (take i aggs) [] h1 = (OK aggs_, h2) ->
        get_index_labels c df h2 = (OK sel, h3) ->
        summarise df args by_ h
        = (Err (IndexError "list index out of range"), h3)).
Proof.
  intros Hi. split; [reflexivity|].
  assert (Hne : args <> []) by (intros ->; discriminate).
  assert (Hag : forall aggs, normalise args = OK aggs ->
            exists ag, aggs !! i = Some ag /\ col ag = c
                       /\ func ag = VList []).
  { intros aggs E.
    destruct (normalise_from_lookup _ _ _ _ _ Hi E) as (ag & Ha & Hl & _).
    simpl in Ha. apply normalise_arg_OK_inv in Ha as (Hc & Hf & _).
    exists ag. repeat split; auto. simpl in Hf. now injection Hf as <-. }
  split.
  - destruct (normalise args) as [aggs|e] eqn:E.
    2:{ exists e. now rewrite (summarise_normalise_Err _ _ _ _ _ E). }
    destruct (Hag aggs eq_refl) as (ag & Hl & Hc & Hf).
    rewrite (summarise_unfold _ _ _ _ _ Hne E). unfold bind at 1.
    destruct (resolve_by df by_ h) as [[grouping|e] h1]; [|now exists e].
    unfold bind, run_requests.
    destruct (foldM_fails_at (run_request df grouping.1) aggs i ag Hl)
      with (acc := @nil value) (h := h1) as (e & h' & ->).
    + intros acc h0. rewrite (run_request_no_function _ _ _ _ _ Hf).
      destruct (get_index_labels (col ag) df h0) as [[?|e] h']; eauto.
    + now exists e.
  - intros aggs grouping h1 aggs_ h2 sel h3 E Hg Hrun Hsel.
    destruct (Hag aggs E) as (ag & Hl & Hc & Hf).
    destruct (first_failure_decides df args by_ h aggs Hne E) as [_ H].
    apply (H grouping h1 i ag aggs_ h2 _ h3 Hg Hl Hrun).
    rewrite (run_request_no_function _ _ _ _ _ Hf), Hc, Hsel. reflexivity.
Qed.

End Failures.

(** ** The two ways of running a request *)

Section Paths.

Context `{rt : Runtime}.

Lemma forM_length {A B} (xs : list A) (f : A -> M B) (h h' : Heap) ys :
  forM xs f h = (OK ys, h') -> length ys = length xs.
Proof.
  revert h h' ys. induction xs as [|x xs IH]; intros h h' ys; simpl.
  - unfold ret. now intros [= <- _].
  - unfold bind. destruct (f x h) as [[y|] h1]; [|discriminate].
    destruct (forM xs f h1) as [[ys'|] h2] eqn:E; [|discriminate].
    unfold ret. intros [= <- _]. simpl. f_equal. exact (IH _ _ _ E).
Qed.

Lemma callables_are_not_describe (fs : list value) :
  forallb callable fs = true ->
  contains_describe fs = OK false.
Proof.
  induction fs as [|f fs IH]; simpl; [reflexivity|].
  intros [Hf Hfs]%andb_true_iff.
  destruct f; try discriminate. simpl. exact (IH Hfs).
Qed.

Lemma lift_OK {A} (r : res A) (a : A) (h : Heap) :
  r = OK a -> lift r h = (OK a, h).
Proof. now intros ->. Qed.

(** X7.  When the aggregation primitive fails on a function list that does
    not start with ["describe"]: any error but an [AttributeError] is the
    error of the aggregation, and no callable is applied; on an
    [AttributeError] with callables only, the callables are applied to the
    selection one after the other, a failure among them is the failure of
    the aggregation, and their results are the output: the result itself
    for one callable, the list of the results, one per callable, for
    several. *)
Theorem fallback_applies_callables_in_turn (val : view) (out : list value)
  (ag : Request) (f1 : value) (fs : list value) (h h1 : Heap) (e : Error) :
  func ag = VList (f1 :: fs) ->
  eq_str f1 "describe" = false ->
  agg val out (func ag) h = (Err e, h1) ->
  (is_UnsupportedFunction e = false ->
     aggregate val out ag h = (Err e, h1))
  /\ (is_UnsupportedFunction e = true ->
      forallb callable (f1 :: fs) = true ->
      forall r h2,
        forM (f1 :: fs) (pipe val out) h1 = (r, h2) ->
        aggregate val out ag h
        = (match r with
           | OK outs => OK (if is_nil fs then nth 0 outs VNone
                            else VList outs)
           | Err e' => Err e'
           end, h2)
        /\ (forall outs, r = OK outs -> length outs = S (length fs))).
Proof.
  intros Hf Hd Hagg.
  assert (Ha : aggregate val out ag h
               = try_except_AttributeError (agg val out (func ag))
                   (fallback val out ag) h).
  { unfold aggregate, bind, lift. rewrite Hf. simpl. now rewrite Hd. }
  rewrite Ha. unfold try_except_AttributeError. rewrite Hagg.
  split.
  - intros He. now destruct e.
  - intros He Hall r h2 Hpipe. destruct e; try discriminate.
    unfold fallback. rewrite Hf. cbn [items]. rewrite Hall.
    unfold bind. rewrite Hpipe.
    destruct r as [outs|e']; [|split; [reflexivity|discriminate]].
    pose proof (forM_length _ _ _ _ _ Hpipe) as Hlen. simpl in Hlen.
    split; [|intros ? [= <-]; exact Hlen].
    unfold ret. rewrite Hlen.
    destruct fs; reflexivity.
Qed.

(** X8.  With two or more callables on the fallback path, every result is
    a partial result of its own: the request appends them all, in the
    order of the callables, and the name of the request is never applied,
    whatever the results are. *)
Theorem several_fallback_results_are_not_renamed (df : loc) (val : view)
  (aggs_ : list value) (ag : Request) (f1 f2 : value) (fs : list value)
  (sel : Labels) (outs : list value) (e : Error) (named : bool)
  (h h1 h2 h3 : Heap) :
  func ag = VList (f1 :: f2 :: fs) ->
  forallb callable (f1 :: f2 :: fs) = true ->
  truthy (name ag) = OK named ->
  get_index_labels (col ag) df h = (OK sel, h1) ->
  agg val (tolist sel) (func ag) h1 = (Err e, h2) ->
  is_UnsupportedFunction e = true ->
  forM (f1 :: f2 :: fs) (pipe val (tolist sel)) h2 = (OK outs, h3) ->
  run_request df val aggs_ ag h = (OK (aggs_ ++ outs), h3).
Proof.
  intros Hf Hall T Hsel Hagg He Hpipe.
  assert (Hd : eq_str f1 "describe" = false).
  { simpl in Hall. apply andb_true_iff in Hall as [H1 _]. now destruct f1. }
  destruct (fallback_applies_callables_in_turn val (tolist sel) ag f1
              (f2 :: fs) h1 h2 e Hf Hd Hagg) as [_ H].
  destruct (H He Hall _ _ Hpipe) as [Ha _]. simpl in Ha.
  unfold run_request. rewrite (bind_OK _ _ _ _ _ Hsel).
  assert (Hc : describe_conflict ag = OK false).
  { unfold describe_conflict. rewrite Hf. cbn [items].
    now rewrite (callables_are_not_describe _ Hall). }
  rewrite (bind_OK _ _ _ _ _ (lift_OK _ _ h1 Hc)), (bind_OK _ _ _ _ _ Ha).
  assert (Hr : rename ag (VList outs) h3 = (OK tt, h3)).
  { unfold rename, bind, lift. rewrite T. now destruct named. }
  rewrite (bind_OK _ _ _ _ _ Hr). reflexivity.
Qed.

(** X9.  A request for ["describe"] alone hands the string itself to the
    aggregation primitive and does not guard the call: whatever the
    primitive raises, an [AttributeError] included, is the failure of the
    request, and without a name its result is collected as it is. *)
Theorem describe_alone_is_not_guarded (df : loc) (val : view)
  (aggs_ : list value) (ag : Request) (sel : Labels) (r : res value)
  (h h1 h2 : Heap) :
  func ag = VList [VStr "describe"] ->
  get_index_labels (col ag) df h = (OK sel, h1) ->
  agg val (tolist sel) (VStr "describe") h1 = (r, h2) ->
  (forall e, r = Err e -> run_request df val aggs_ ag h = (Err e, h2))
  /\ (forall out, r = OK out -> falsy (name ag) ->
        run_request df val aggs_ ag h = (OK (collect aggs_ out), h2)).
Proof.
  intros Hf Hsel Hagg.
  assert (Ha : aggregate val (tolist sel) ag h1 = (r, h2)).
  { unfold aggregate, bind, lift. rewrite Hf. simpl. exact Hagg. }
  assert (Hc : describe_conflict ag = OK false).
  { unfold describe_conflict. now rewrite Hf. }
  split.
  - intros e ->. unfold run_request.
    rewrite (bind_OK _ _ _ _ _ Hsel), (bind_OK _ _ _ _ _ (lift_OK _ _ h1 Hc)).
    unfold bind. now rewrite Ha.
  - intros out -> F. unfold run_request.
    rewrite (bind_OK _ _ _ _ _ Hsel), (bind_OK _ _ _ _ _ (lift_OK _ _ h1 Hc)),
      (bind_OK _ _ _ _ _ Ha).
    unfold bind, rename, lift. now rewrite F.
Qed.

Lemma run_request_accumulator (df : loc) (val : view) (acc : list value)
  (ag : Request) (h : Heap) :
  run_request df val acc ag h
  = match run_request df val [] ag h with
    | (OK new, h') => (OK (acc ++ new), h')
    | (Err e, h') => (Err e, h')
    end.
Proof.
  unfold run_request, bind, lift.
  destruct (get_index_labels (col ag) df h) as [[sel|e] h1]; [|reflexivity].
  destruct (describe_conflict ag) as [[|]|e]; try reflexivity.
  destruct (aggregate val (tolist sel) ag h1) as [[out|e] h2]; [|reflexivity].
  destruct (rename ag out h2) as [[[]|e] h3]; [|reflexivity].
  unfold ret, collect. destruct out; reflexivity.
Qed.

Lemma run_requests_accumulator (df : loc) (val : view)
  (aggs : list Request) (acc : list value) (h : Heap) :
  run_requests df val aggs acc h
  = match run_requests df val aggs [] h with
    | (OK new, h') => (OK (acc ++ new), h')
    | (Err e, h') => (Err e, h')
    end.
Proof.
  unfold run_requests. revert acc h.
  induction aggs as [|ag aggs IH]; intros acc h; simpl.
  - unfold ret. now rewrite app_nil_r.
  - unfold bind. rewrite (run_request_accumulator df val acc ag h).
    destruct (run_request df val [] ag h) as [[new1|e] h1]; [|reflexivity].
    rewrite (IH (acc ++ new1)), (IH new1).
    destruct (foldM (run_request df val) aggs [] h1) as [[new2|e] h2];
      [|reflexivity].
    now rewrite app_assoc.
Qed.

(** X10.  Partial results accumulate in request order: running a batch
    made of two parts from any list of earlier results is running the
    first part, then the second from the store the first one left, and
    appending what each produced behind the earlier results, which are
    neither dropped, reordered nor changed. *)
Theorem partial_results_accumulate_in_order (df : loc) (val : view)
  (aggs1 aggs2 : list Request) (acc : list value) (h : Heap) :
  run_requests df val (aggs1 ++ aggs2) acc h
  = match run_requests df val aggs1 [] h with
    | (OK new1, h1) =>
        match run_requests df val aggs2 [] h1 with
        | (OK new2, h2) => (OK (acc ++ new1 ++ new2), h2)
        | (Err e, h2) => (Err e, h2)
        end
    | (Err e, h1) => (Err e, h1)
    end.
Proof.
  rewrite run_requests_accumulator. unfold run_requests at 1.
  rewrite foldM_app. unfold bind. fold (run_requests df val aggs1 [] h).
  destruct (run_requests df val aggs1 [] h) as [[new1|e] h1]; [|reflexivity].
  fold (run_requests df val aggs2 new1 h1).
  rewrite (run_requests_accumulator df val aggs2 new1 h1).
  destruct (run_requests df val aggs2 [] h1) as [[new2|e] h2]; reflexivity.
Qed.

(** X11.  When the requests leave exactly one partial result, the call
    returns it as it is, table or not, without reconciling or
    concatenating anything; when they leave none, the call fails with an
    [IndexError]. *)
Theorem lone_partial_result_is_returned_as_is (df : loc)
  (args : list value) (by_ : value) (h h1 h2 : Heap) aggs grouping aggs_ :
  args <> [] ->
  normalise args = OK aggs ->
  resolve_by df by_ h = (OK grouping, h1) ->
  run_requests df grouping.1 aggs [] h1 = (OK aggs_, h2) ->
  (forall v, aggs_ = [v] -> summarise df args by_ h = (OK v, h2))
  /\ (aggs_ = [] ->
      summarise df args by_ h
      = (Err (IndexError "list index out of range"), h2)).
Proof.
  intros Hne E Hg Hrun.
  assert (Hs : summarise df args by_ h = assemble grouping.2 aggs_ h2).
  { rewrite (summarise_unfold _ _ _ _ _ Hne E).
    now rewrite (bind_OK _ _ _ _ _ Hg), (bind_OK _ _ _ _ _ Hrun). }
  rewrite Hs. split.
  - intros v ->. reflexivity.
  - intros ->. reflexivity.
Qed.

End Paths.

(** ** The padding loop, in full *)

(** X12.  Header reconciliation, in full.  On tables it always succeeds.
    With [k] the number of different header depths among them: when [k] is
    at most 1 nothing changes; otherwise every table of the list whose
    header has fewer than [k] levels gets levels of empty labels, one
    label per column, appended until it has [k] levels, and every other
    table of the store, in the list or not, is left as it is.  Index and
    cells are never touched. *)
Theorem reconcile_pads_to_count_of_depths (h : Heap) (aggs_ : list value) :
  Forall (is_table h) aggs_ ->
  exists h',
    reconcile aggs_ h = (OK tt, h')
    /\ (forall l,
          h' !! l
          = (fun f => if existsb (is_ref l) aggs_
                         && (1 <? distinct_depths h aggs_)
                      then padded_to (distinct_depths h aggs_) f
                      else f) <$> h !! l)
    /\ (forall k f,
          levels (columns (padded_to k f))
          = levels (columns f)
            ++ replicate (k - nlevels (columns f))
                 (replicate (Index_size (columns f)) (VStr ""))
          /\ index (padded_to k f) = index f
          /\ cells (padded_to k f) = cells f).
Proof.
  intros Hall.
  destruct (depths_total h aggs_ Hall) as (ds & Hds & Hh).
  assert (Hk : distinct_depths h aggs_ = size (list_to_set ds : gset nat)).
  { unfold distinct_depths. now rewrite Hh, omap_id_Some. }
  assert (Hlev : forall k f,
            levels (columns (padded_to k f))
            = levels (columns f)
              ++ replicate (k - nlevels (columns f))
                   (replicate (Index_size (columns f)) (VStr ""))
            /\ index (padded_to k f) = index f
            /\ cells (padded_to k f) = cells f).
  { intros k f. destruct (padded_to_levels k f) as (H1 & _ & H3 & H4).
    now repeat split. }
  unfold reconcile. rewrite (bind_OK _ _ _ _ _ Hds), Hk.
  destruct (1 <? size (list_to_set ds : gset nat)) eqn:E.
  - destruct (padding_loop (size (list_to_set ds : gset nat)) aggs_ h Hall)
      as (h' & Hrun & Hlook).
    exists h'. split; [exact Hrun|]. split; [|exact Hlev].
    intros l. rewrite Hlook. now rewrite andb_true_r.
  - exists h. split; [reflexivity|]. split; [|exact Hlev].
    intros l. rewrite andb_false_r. now destruct (h !! l).
Qed.

(** ** Headers are all the function writes *)

Section HeadersOnly.

Context `{rt : Runtime}.
Hypothesis collaborators : steady_runtime rt.

Lemma steady_lift {A} (r : res A) : steady (lift r).
Proof. intros h. apply same_data_refl. Qed.

Lemma steady_try {A} (m handler : M A) :
  steady m -> steady handler -> steady (try_except_AttributeError m handler).
Proof.
  intros Hm Hh h. specialize (Hm h). unfold try_except_AttributeError.
  destruct (m h) as [[a|e] h1]; simpl in *; [exact Hm|].
  destruct e; try exact Hm.
  eapply same_data_trans; [exact Hm|apply Hh].
Qed.

Lemma steady_foldM {A B} (f : B -> A -> M B) (xs : list A) :
  (forall acc x, steady (f acc x)) -> forall acc, steady (foldM f xs acc).
Proof.
  intros Hf. induction xs as [|x xs IH]; intros acc; simpl.
  - apply steady_ret.
  - apply steady_bind; [apply Hf|]. intros acc'. apply IH.
Qed.

Lemma steady_deref (l : loc) : steady (deref l).
Proof.
  intros h. unfold deref. destruct (h !! l); apply same_data_refl.
Qed.

Lemma steady_rename (ag : Request) (out : value) : steady (rename ag out).
Proof.
  unfold rename. apply steady_bind; [apply steady_lift|].
  intros [|]; [|apply steady_ret].
  destruct out; try apply steady_ret.
  apply steady_bind; [apply steady_deref|]. intros f.
  destruct (_ =? 1); [|apply steady_ret].
  apply steady_bind; [apply steady_lift|]. intros ix.
  apply steady_set_columns.
Qed.

Lemma steady_aggregate (val : view) (out : list value) (ag : Request) :
  steady (aggregate val out ag).
Proof.
  unfold aggregate. apply steady_bind; [apply steady_lift|]. intros f1.
  destruct (eq_str f1 "describe"); [apply (agg_steady _ collaborators)|].
  apply steady_try; [apply (agg_steady _ collaborators)|].
  unfold fallback. destruct (forallb callable _); [|apply steady_ret].
  apply steady_bind.
  - apply steady_forM. intros fn. apply (pipe_steady _ collaborators).
  - intros outs. apply steady_ret.
Qed.

Lemma steady_run_request (df : loc) (val : view) (acc : list value)
  (ag : Request) : steady (run_request df val acc ag).
Proof.
  unfold run_request.
  apply steady_bind; [apply (labels_steady _ collaborators)|]. intros sel.
  apply steady_bind; [apply steady_lift|]. intros [|]; [apply steady_raise|].
  apply steady_bind; [apply steady_aggregate|]. intros out.
  apply steady_bind; [apply steady_rename|]. intros _. apply steady_ret.
Qed.

Lemma steady_resolve_by (df : loc) (by_ : value) : steady (resolve_by df by_).
Proof.
  unfold resolve_by. apply steady_bind; [apply steady_lift|].
  intros [|]; [|apply steady_ret].
  assert (Hg : forall spec,
            steady (let* val := groupby df spec in ret (Grouped val, true))).
  { intros spec. apply steady_bind; [apply (groupby_steady _ collaborators)|].
    intros g. apply steady_ret. }
  destruct by_; try apply Hg;
    (apply steady_bind; [apply (labels_steady _ collaborators)|];
     intros sel; apply Hg).
Qed.

Lemma steady_assemble (by_is_true : bool) (aggs_ : list value) :
  steady (assemble by_is_true aggs_).
Proof.
  unfold assemble. destruct (1 <? length aggs_); [|apply steady_lift].
  apply steady_bind; [apply steady_reconcile|]. intros _.
  apply (concat_steady _ collaborators).
Qed.

Lemma steady_summarise (df : loc) (args : list value) (by_ : value) :
  steady (summarise df args by_).
Proof.
  unfold summarise. destruct (is_nil args); [apply steady_raise|].
  apply steady_bind; [apply steady_lift|]. intros aggs.
  apply steady_bind; [apply steady_resolve_by|]. intros grouping.
  apply steady_bind; [|intros aggs_; apply steady_assemble].
  unfold run_requests. apply steady_foldM. intros acc ag.
  apply steady_run_request.
Qed.

End HeadersOnly.

(** X13.  Column headers are all the function ever writes: as long as the
    collaborators keep the index and the cells of the tables they find in
    the store, every table that is in the store before a call is still
    there afterwards with the same index and the same cells, whether the
    call returns or raises. *)
Theorem call_writes_headers_only `{rt : Runtime} (df : loc)
  (args : list value) (by_ : value) (h : Heap) :
  steady_runtime rt ->
  same_data h (summarise df args by_ h).2.
Proof.
  intros Hc. exact (steady_summarise Hc df args by_ h).
Qed.

Lemma sample_steady (callables : list Sample.behaviour) :
  steady_runtime (Sample.runtime callables).
Proof.
  assert (Hbuild : forall make, steady (Sample.build make)).
  { intros make h. unfold Sample.build.
    destruct (make h); [|apply same_data_refl].
    unfold Sample.alloc. simpl. intros l f Hl. exists f.
    split; [|now split]. rewrite lookup_insert_ne; [exact Hl|].
    intros E. apply (is_fresh (dom h)). rewrite E.
    apply elem_of_dom. now exists f. }
  split; simpl.
  - intros sel l h. rewrite sample_labels_store. apply same_data_refl.
  - intros l by_ h. unfold Sample.sample_groupby.
    destruct (Sample.open_view _ _); apply same_data_refl.
  - intros val cols fn. apply Hbuild.
  - intros val cols fn. unfold Sample.sample_pipe.
    destruct fn; try (intros h; apply same_data_refl).
    destruct (callables !! c) as [[label f| |l]|];
      try apply Hbuild; intros h; apply same_data_refl.
  - intros frames axis. apply Hbuild.
Qed.

(** ** The further properties at work on the sample runtime *)

Lemma validation_precedes_execution_witness :
  summarise (rt := Sample.runtime []) 0
    [VTuple [VStr "avg_run"; VStr "sum"]; VTuple [VStr "avg_run"; VInt 5]]
    (VStr "category") {[ 0 := Sample.athletes ]}
  = (Err (CheckFailed (func_varname 1)), {[ 0 := Sample.athletes ]}).
Proof.
  destruct (proj2 (validation_precedes_execution (rt := Sample.runtime []) 0
    [VTuple [VStr "avg_run"; VStr "sum"]; VTuple [VStr "avg_run"; VInt 5]]
    (VStr "category") {[ 0 := Sample.athletes ]})
    (CheckFailed (func_varname 1))) as [H _].
  - vm_compute. reflexivity.
  - exact H.
Defined.

Lemma normalise_keeps_order_and_lists_witness :
  let args := [VTuple [VStr "avg_run"; VStr "sum"];
               VTuple [VStr "avg_jump"; VList [VStr "min"; VStr "max"];
                       VStr "jump"]] in
  let aggs := [_tupled_kw (VStr "avg_run") (VList [VStr "sum"]) VNone;
               _tupled_kw (VStr "avg_jump") (VList [VStr "min"; VStr "max"])
                          (VStr "jump")] in
  length aggs = length args
  /\ forall i ag, aggs !! i = Some ag ->
       exists c f rest,
         args !! i = Some (VTuple (c :: f :: rest))
         /\ length rest <= 1
         /\ col ag = c
         /\ name ag = nth 0 rest VNone
         /\ func ag = (if is_str f || callable f then VList [f] else f)
         /\ exists fs, func ag = VList fs.
Proof.
  intros args aggs. apply normalise_keeps_order_and_lists.
  vm_compute. reflexivity.
Defined.

Lemma truthy_name_must_be_hashable_witness :
  normalise_arg 2
    (VTuple [VStr "avg_run"; VStr "sum"; VList [VStr "pace"]])
  = Err (CheckFailed (name_varname 2)).
Proof.
  exact (proj1 (truthy_name_must_be_hashable 2 (VStr "avg_run") (VStr "sum")
                  (VList [VStr "pace"]) (VList [VStr "sum"])
                  eq_refl eq_refl) eq_refl).
Defined.

Lemma single_function_is_one_element_list_witness :
  summarise (rt := Sample.runtime []) 0
    [VTuple [VStr "avg_run"; VList [VStr "sum"]]] VNone
    {[ 0 := Sample.athletes ]}
  = summarise (rt := Sample.runtime []) 0
      [VTuple [VStr "avg_run"; VStr "sum"]] VNone
      {[ 0 := Sample.athletes ]}.
Proof.
  exact (single_function_is_one_element_list (rt := Sample.runtime []) 0
           VNone {[ 0 := Sample.athletes ]}
           [VTuple [VStr "avg_run"; VStr "sum"]] 0
           (VStr "avg_run") (VStr "sum") [] eq_refl eq_refl).
Defined.

Lemma first_failure_decides_witness :
  let rt := Sample.runtime [] in
  let h : Heap := {[ 0 := Sample.athletes ]} in
  let args := [VTuple [VStr "avg_run"; VStr "sum"];
               VTuple [VStr "pace"; VStr "sum"]] in
  summarise 0 args (VStr "team") h
  = (Err (KeyError "no match for the selection"), h)
  /\ exists h3,
       summarise 0 args VNone h
       = (Err (KeyError "no match for the selection"), h3).
Proof.
  intros rt h args.
  pose (aggs := [_tupled_kw (VStr "avg_run") (VList [VStr "sum"]) VNone;
                 _tupled_kw (VStr "pace") (VList [VStr "sum"]) VNone]).
  assert (Hne : args <> []) by discriminate.
  assert (Hn : normalise args = OK aggs) by (vm_compute; reflexivity).
  split.
  - destruct (first_failure_decides 0 args (VStr "team") h aggs Hne Hn)
      as [H _].
    apply H. vm_compute. reflexivity.
  - destruct (first_failure_decides 0 args VNone h aggs Hne Hn) as [_ H].
    pose (h2 := (run_requests 0 (Whole 0) (take 1 aggs) [] h).2).
    exists h2.
    apply (H (Whole 0, false) h 1
             (_tupled_kw (VStr "pace") (VList [VStr "sum"]) VNone)
             [VFrame 1] h2).
    + vm_compute. reflexivity.
    + reflexivity.
    + vm_compute. reflexivity.
    + vm_compute. reflexivity.
Defined.

Lemma empty_function_list_fails_witness :
  summarise (rt := Sample.runtime []) 0
    [VTuple [VStr "avg_run"; VList []]] VNone {[ 0 := Sample.athletes ]}
  = (Err (IndexError "list index out of range"), {[ 0 := Sample.athletes ]}).
Proof.
  destruct (empty_function_list_fails (rt := Sample.runtime []) 0 VNone
    {[ 0 := Sample.athletes ]} [VTuple [VStr "avg_run"; VList []]]
    0 (VStr "avg_run") [] eq_refl) as (_ & _ & H).
  eapply H; vm_compute; reflexivity.
Defined.

Lemma fallback_applies_callables_in_turn_witness :
  let rt := Sample.runtime Sample.callables in
  let h : Heap := {[ 0 := Sample.athletes ]} in
  let ag := _tupled_kw (VStr "avg_run") (VList [VCallable 1]) VNone in
  exists h2,
    aggregate (Whole 0) [VStr "avg_run"] ag h = (OK (VFrame 1), h2)
    /\ h2 !! 1 = Some (Sample.table_whole Sample.athletes [1]).
Proof.
  intros rt h ag.
  pose (h2 := (forM [VCallable 1] (pipe (Whole 0) [VStr "avg_run"]) h).2).
  assert (Hagg : agg (Whole 0) [VStr "avg_run"] (func ag) h
                 = (Err (AttributeError "object has no attribute"), h))
    by (vm_compute; reflexivity).
  assert (Hpipe : forM [VCallable 1] (pipe (Whole 0) [VStr "avg_run"]) h
                  = (OK [VFrame 1], h2))
    by (vm_compute; reflexivity).
  destruct (fallback_applies_callables_in_turn (Whole 0) [VStr "avg_run"] ag
              (VCallable 1) [] h h _ eq_refl eq_refl Hagg) as [_ H].
  destruct (H eq_refl eq_refl _ _ Hpipe) as [Ha _].
  exists h2. split; [exact Ha|]. vm_compute. reflexivity.
Defined.

Lemma several_fallback_results_are_not_renamed_witness :
  let rt := Sample.runtime Sample.callables in
  let h : Heap := {[ 0 := Sample.athletes ]} in
  let ag := _tupled_kw (VStr "avg_run") (VList [VCallable 1; VCallable 1])
                       (VStr "pace") in
  exists h3,
    run_request 0 (Whole 0) [] ag h = (OK [VFrame 1; VFrame 2], h3)
    /\ (fun f => column_keys (columns f)) <$> h3 !! 1 = Some [VStr "avg_run"]
    /\ (fun f => column_keys (columns f)) <$> h3 !! 2 = Some [VStr "avg_run"].
Proof.
  intros rt h ag.
  pose (h3 := (forM [VCallable 1; VCallable 1]
                 (pipe (Whole 0) [VStr "avg_run"]) h).2).
  assert (Hsel : get_index_labels (col ag) 0 h
                 = (OK (Scalar (VStr "avg_run")), h))
    by (vm_compute; reflexivity).
  assert (Hagg : agg (Whole 0) (tolist (Scalar (VStr "avg_run"))) (func ag) h
                 = (Err (AttributeError "object has no attribute"), h))
    by (vm_compute; reflexivity).
  assert (Hpipe : forM [VCallable 1; VCallable 1]
                    (pipe (Whole 0) (tolist (Scalar (VStr "avg_run")))) h
                  = (OK [VFrame 1; VFrame 2], h3))
    by (vm_compute; reflexivity).
  exists h3. split.
  - exact (several_fallback_results_are_not_renamed 0 (Whole 0) [] ag
             (VCallable 1) (VCallable 1) [] (Scalar (VStr "avg_run"))
             [VFrame 1; VFrame 2] _ true h h h h3
             eq_refl eq_refl eq_refl Hsel Hagg eq_refl Hpipe).
  - split; vm_compute; reflexivity.
Defined.

Lemma describe_alone_is_not_guarded_witness :
  let rt := Sample.runtime [] in
  let h : Heap := {[ 0 := Sample.athletes ]} in
  let ag := _tupled_kw (VStr "avg_run") (VList [VStr "describe"]) VNone in
  let stale := Grouped (mkGroupBy 0 (ByKeys [VStr "team"])) in
  run_request 0 stale [] ag h = (Err (KeyError "column not found"), h)
  /\ exists h2,
       run_request 0 (Whole 0) [] ag h = (OK [VFrame 1], h2)
       /\ (columns <$> h2 !! 1) = Some (mkIndex false [[VStr "avg_run"]])
       /\ (index <$> h2 !! 1)
          = Some (mkIndex false [[VStr "count"; VStr "min"; VStr "max"]]).
Proof.
  intros rt h ag stale.
  assert (Hsel : get_index_labels (col ag) 0 h
                 = (OK (Scalar (VStr "avg_run")), h))
    by (vm_compute; reflexivity).
  split.
  - assert (Hagg : agg stale (tolist (Scalar (VStr "avg_run")))
                     (VStr "describe") h
                   = (Err (KeyError "column not found"), h))
      by (vm_compute; reflexivity).
    destruct (describe_alone_is_not_guarded 0 stale [] ag
                (Scalar (VStr "avg_run")) _ h h h eq_refl Hsel Hagg)
      as [H _].
    exact (H _ eq_refl).
  - pose (h2 := (agg (Whole 0) [VStr "avg_run"] (VStr "describe") h).2).
    assert (Hagg : agg (Whole 0) (tolist (Scalar (VStr "avg_run")))
                     (VStr "describe") h
                   = (OK (VFrame 1), h2))
      by (vm_compute; reflexivity).
    exists h2. split; [|split; vm_compute; reflexivity].
    destruct (describe_alone_is_not_guarded 0 (Whole 0) [] ag
                (Scalar (VStr "avg_run")) _ h h h2 eq_refl Hsel Hagg)
      as [_ H].
    exact (H _ eq_refl eq_refl).
Defined.

Lemma lone_partial_result_is_returned_as_is_witness :
  let h : Heap := {[ 0 := Sample.athletes ]} in
  (exists h2,
     summarise (rt := Sample.runtime []) 0
       [VTuple [VStr "avg_run"; VStr "sum"]] VNone h = (OK (VFrame 1), h2))
  /\ summarise (rt := hollow_runtime) 0
       [VTuple [VStr "avg_run"; VCallable 0]] VNone h
     = (Err (IndexError "list index out of range"), h).
Proof.
  intros h. split.
  - pose (aggs := [_tupled_kw (VStr "avg_run") (VList [VStr "sum"]) VNone]).
    pose (h2 := (run_requests (rt := Sample.runtime []) 0 (Whole 0) aggs []
                   h).2).
    exists h2.
    destruct (lone_partial_result_is_returned_as_is
                (rt := Sample.runtime []) 0
                [VTuple [VStr "avg_run"; VStr "sum"]] VNone h h h2 aggs
                (Whole 0, false) [VFrame 1]) as [H _].
    + discriminate.
    + vm_compute. reflexivity.
    + vm_compute. reflexivity.
    + vm_compute. reflexivity.
    + exact (H _ eq_refl).
  - pose (aggs := [_tupled_kw (VStr "avg_run") (VList [VCallable 0]) VNone]).
    destruct (lone_partial_result_is_returned_as_is (rt := hollow_runtime) 0
                [VTuple [VStr "avg_run"; VCallable 0]] VNone h h h aggs
                (Whole 0, false) []) as [_ H].
    + discriminate.
    + vm_compute. reflexivity.
    + vm_compute. reflexivity.
    + vm_compute. reflexivity.
    + exact (H eq_refl).
Defined.

Lemma reconcile_pads_to_count_of_depths_witness :
  let h : Heap := {[ 1 := Sample.runs; 2 := Sample.nested ]} in
  exists h',
    reconcile [VFrame 1; VFrame 2] h = (OK tt, h')
    /\ h' !! 1 = Some (padded_to 2 Sample.runs)
    /\ h' !! 2 = Some Sample.nested
    /\ levels (columns (padded_to 2 Sample.runs))
       = [[VStr "avg_run"]; [VStr ""]].
Proof.
  intros h.
  assert (Hall : Forall (is_table h) [VFrame 1; VFrame 2]).
  { repeat constructor; eexists _, _; (split; [reflexivity|]);
      vm_compute; reflexivity. }
  destruct (reconcile_pads_to_count_of_depths h [VFrame 1; VFrame 2] Hall)
    as (h' & Hr & Hl & _).
  exists h'. split; [exact Hr|].
  split; [|split].
  - rewrite Hl. vm_compute. reflexivity.
  - rewrite Hl. vm_compute. reflexivity.
  - reflexivity.
Defined.

Lemma call_writes_headers_only_witness :
  same_data ({[ 0 := Sample.athletes ]} : Heap)
    (summarise (rt := Sample.runtime Sample.callables) 0
       [VTuple [VStr "avg_run"; VStr "sum"; VStr "pace"];
        VTuple [VStr "avg_jump"; VCallable 1]]
       (VStr "category") {[ 0 := Sample.athletes ]}).2.
Proof.
  apply (call_writes_headers_only (rt := Sample.runtime Sample.callables)).
  apply sample_steady.
Defined.
